(** * wayland-shm.c: shared-memory pools and buffers

    A shallow embedding of [src/wayland-shm.c].  The C heap is a record
    of finite maps (one per object type), pointers are keys of those
    maps, and every function of the file is a state transformer that may
    fault (a dereference of a pointer that is not allocated, a write
    outside the block it points to, a division by zero) and that appends the calls it makes into the operating
    system and the protocol layer to a trace. *)

From Stdlib Require Import ZArith Lia List.
From stdpp Require Import base option gmap list.

Local Open Scope Z_scope.

(** ** Machine integers

    [int], [int32_t] and [uint32_t] values are integers of [Z]; the
    result of a signed 32-bit operation is brought back into range with
    [wrap32]. *)

Definition INT32_MAX : Z := 2147483647.
Definition INT32_MIN : Z := -2147483648.

Definition wrap32 (x : Z) : Z := (x + 2 ^ 31) mod 2 ^ 32 - 2 ^ 31.

Definition in_int32 (x : Z) : Prop := INT32_MIN <= x <= INT32_MAX.

(** ** Constants of the generated protocol header *)

(** Modelled from the spec: the enumerators [WL_SHM_FORMAT_*] of
    wayland-server-protocol.h, which is generated and not part of the
    source file.  The spec names the whitelist {ARGB, XRGB} and has 7
    outside of it; the numbers are those of the wl_shm protocol. *)
Definition WL_SHM_FORMAT_ARGB8888 : Z := 0.
Definition WL_SHM_FORMAT_XRGB8888 : Z := 1.

(** Modelled from the spec: the error enumeration of the same header,
    one constructor per protocol error the file posts. *)
Inductive wl_shm_error : Set :=
| WL_SHM_ERROR_INVALID_FORMAT
| WL_SHM_ERROR_INVALID_STRIDE
| WL_SHM_ERROR_INVALID_FD.

(** [MAP_FAILED] is [(void * ) -1]. *)
Definition MAP_FAILED : Z := -1.

(** ** Objects *)

Definition ptr := positive.

(** [NULL] is [None]. *)
Record wl_shm_pool : Set := Wl_shm_pool {
  pool_resource : option ptr;
  refcount : Z;
  data : Z;
  size : Z
}.

Record wl_shm_buffer : Set := Wl_shm_buffer {
  resource : option ptr;
  width : Z;
  height : Z;
  stride : Z;
  format : Z;
  offset : Z;
  pool : option ptr
}.

(** The interfaces, the tables of request handlers and the destructor
    callbacks are compared by address only, so each is a name. *)
Inductive wl_interface : Set :=
| wl_buffer_interface
| wl_shm_pool_interface
| wl_shm_interface
| foreign_interface (n : nat).

Inductive implementation : Set :=
| shm_buffer_interface
| shm_pool_interface
| shm_interface
| foreign_implementation (n : nat).

Inductive destructor : Set :=
| Destroy_buffer
| Destroy_pool.

(** Modelled from the spec: [struct wl_resource] of the dispatch
    substrate (wayland-server.c), an opaque handle with an interface, an
    id, and, once bound, an implementation, user data and a destructor
    callback. *)
Record wl_resource : Set := Wl_resource {
  res_interface : wl_interface;
  res_id : Z;
  res_implementation : option implementation;
  res_data : option ptr;
  res_destroy : option destructor
}.

(** What [malloc] returned for a buffer: the header and the number of
    bytes of the block beyond [sizeof *buffer]; the number is negative
    when the block is smaller than a header. *)
Record buffer_object : Set := Buffer_object {
  header : wl_shm_buffer;
  payload : Z
}.

(** ** The heap *)

Record heap : Type := Heap {
  pools : gmap ptr wl_shm_pool;
  buffers : gmap ptr buffer_object;
  resources : gmap ptr wl_resource;
  mappings : gmap Z Z;
  fds : gset Z
}.

Definition set_pools (f : gmap ptr wl_shm_pool → gmap ptr wl_shm_pool) (h : heap) : heap :=
  Heap (f (pools h)) (buffers h) (resources h) (mappings h) (fds h).
Definition set_buffers (f : gmap ptr buffer_object → gmap ptr buffer_object) (h : heap) : heap :=
  Heap (pools h) (f (buffers h)) (resources h) (mappings h) (fds h).
Definition set_resources (f : gmap ptr wl_resource → gmap ptr wl_resource) (h : heap) : heap :=
  Heap (pools h) (buffers h) (f (resources h)) (mappings h) (fds h).
Definition set_mappings (f : gmap Z Z → gmap Z Z) (h : heap) : heap :=
  Heap (pools h) (buffers h) (resources h) (f (mappings h)) (fds h).
Definition set_fds (f : gset Z → gset Z) (h : heap) : heap :=
  Heap (pools h) (buffers h) (resources h) (mappings h) (f (fds h)).

(** Field assignments. *)
Definition set_pool_resource (v : option ptr) (p : wl_shm_pool) : wl_shm_pool :=
  Wl_shm_pool v (refcount p) (data p) (size p).
Definition set_refcount (v : Z) (p : wl_shm_pool) : wl_shm_pool :=
  Wl_shm_pool (pool_resource p) v (data p) (size p).
Definition set_data (v : Z) (p : wl_shm_pool) : wl_shm_pool :=
  Wl_shm_pool (pool_resource p) (refcount p) v (size p).
Definition set_size (v : Z) (p : wl_shm_pool) : wl_shm_pool :=
  Wl_shm_pool (pool_resource p) (refcount p) (data p) v.

Definition set_resource (v : option ptr) (b : wl_shm_buffer) : wl_shm_buffer :=
  Wl_shm_buffer v (width b) (height b) (stride b) (format b) (offset b) (pool b).
Definition set_width (v : Z) (b : wl_shm_buffer) : wl_shm_buffer :=
  Wl_shm_buffer (resource b) v (height b) (stride b) (format b) (offset b) (pool b).
Definition set_height (v : Z) (b : wl_shm_buffer) : wl_shm_buffer :=
  Wl_shm_buffer (resource b) (width b) v (stride b) (format b) (offset b) (pool b).
Definition set_stride (v : Z) (b : wl_shm_buffer) : wl_shm_buffer :=
  Wl_shm_buffer (resource b) (width b) (height b) v (format b) (offset b) (pool b).
Definition set_format (v : Z) (b : wl_shm_buffer) : wl_shm_buffer :=
  Wl_shm_buffer (resource b) (width b) (height b) (stride b) v (offset b) (pool b).
Definition set_offset (v : Z) (b : wl_shm_buffer) : wl_shm_buffer :=
  Wl_shm_buffer (resource b) (width b) (height b) (stride b) (format b) v (pool b).
Definition set_pool (v : option ptr) (b : wl_shm_buffer) : wl_shm_buffer :=
  Wl_shm_buffer (resource b) (width b) (height b) (stride b) (format b) (offset b) v.

(** [p->data] and [p->size] where a parameter of the C function has the
    name of the field. *)
Abbreviation pool_data := data (only parsing).
Abbreviation pool_size := size (only parsing).

(** ** Calls that leave the process *)

Inductive event : Set :=
| EvPostError (resource : ptr) (code : wl_shm_error)
| EvNoMemory
| EvMunmap (addr len : Z)
| EvClose (fd : Z).

(** ** Faults and the two monads *)

Inductive fault : Set :=
| DivByZero
| InvalidPointer.

Inductive result (A : Type) : Type :=
| Ok (a : A)
| Fault (f : fault).
Arguments Ok {A} a.
Arguments Fault {A} f.

(** Expressions read the heap and record the divisor of every division
    they evaluate. *)
Definition E (A : Type) : Type := heap → result A * list Z.

Definition eret {A} (a : A) : E A := λ _, (Ok a, []).
Definition ebind {A B} (m : E A) (f : A → E B) : E B :=
  λ h, match m h with
       | (Ok a, ds) => let '(r, ds') := f a h in (r, ds ++ ds')
       | (Fault e, ds) => (Fault e, ds)
       end.

(** Statements change the heap and emit events. *)
Definition M (A : Type) : Type := heap → result (A * heap * list event).

Definition ret {A} (a : A) : M A := λ h, Ok (a, h, []).
Definition bind {A B} (m : M A) (f : A → M B) : M B :=
  λ h, match m h with
       | Ok (a, h1, t1) =>
           match f a h1 with
           | Ok (b, h2, t2) => Ok (b, h2, t1 ++ t2)
           | Fault e => Fault e
           end
       | Fault e => Fault e
       end.

Declare Scope c_scope.
Delimit Scope c_scope with C.
Notation "'let*' x := m 'in' k" := (bind m (λ x, k))
  (at level 10, x binder, k at level 200) : c_scope.
Notation "m ;; k" := (bind m (λ _, k))
  (at level 100, right associativity) : c_scope.
Notation "'let+' x := m 'in' k" := (ebind m (λ x, k))
  (at level 10, x binder, k at level 200) : c_scope.

Definition fail {A} (f : fault) : M A := λ _, Fault f.
Definition emit (e : event) : M unit := λ h, Ok (tt, h, [e]).
Definition modify (f : heap → heap) : M unit := λ h, Ok (tt, f h, []).

(** An expression used as a statement: the divisors are dropped. *)
Definition eval {A} (e : E A) : M A :=
  λ h, match fst (e h) with
       | Ok a => Ok (a, h, [])
       | Fault f => Fault f
       end.

(** C's [a / b] on [int]. *)
Definition c_div (a b : Z) : E Z :=
  λ _, (if b =? 0 then Fault DivByZero else Ok (wrap32 (Z.quot a b)), [b]).

(** C's [a || b]: [b] is evaluated only when [a] is false. *)
Definition c_or (a b : E bool) : E bool :=
  ebind a (λ x, if x : bool then eret true else b).
Notation "a ||| b" := (c_or a b) (at level 50, left associativity) : c_scope.

Local Open Scope c_scope.

(** ** The C library and the protocol layer

    Whether [malloc], [mmap], [mremap] and [wl_resource_create] succeed
    is not decided by this file: each function below takes the answer as
    an argument.  A fresh object gets a pointer that is not in use. *)

Definition deref {A} (objects : heap → gmap ptr A) (p : option ptr) : E A :=
  λ h, (match p with
        | Some a => match objects h !! a with
                    | Some x => Ok x
                    | None => Fault InvalidPointer
                    end
        | None => Fault InvalidPointer
        end, []).

(** Contents of a pool object that [malloc] has just returned; no field
    is read before it is assigned. *)
Definition uninit_pool : wl_shm_pool := Wl_shm_pool None 0 0 0.
Definition uninit_buffer : wl_shm_buffer := Wl_shm_buffer None 0 0 0 0 0 None.

Definition malloc_pool (ok : bool) : M (option ptr) :=
  λ h, if ok
       then let p := fresh (dom (pools h)) in
            Ok (Some p, set_pools <[p := uninit_pool]> h, [])
       else Ok (None, h, []).

Definition malloc_buffer (ok : bool) (extra : Z) : M (option ptr) :=
  λ h, if ok
       then let p := fresh (dom (buffers h)) in
            Ok (Some p, set_buffers <[p := Buffer_object uninit_buffer extra]> h, [])
       else Ok (None, h, []).

(** [free(NULL)] does nothing; freeing what is not allocated faults. *)
Definition free_pool (p : option ptr) : M unit :=
  match p with
  | None => ret tt
  | Some a => eval (deref pools p) ;; modify (set_pools (delete a))
  end.

Definition free_buffer (p : option ptr) : M unit :=
  match p with
  | None => ret tt
  | Some a => eval (deref buffers p) ;; modify (set_buffers (delete a))
  end.

(** [sizeof (struct wl_shm_buffer)] where a pointer has 8 bytes and an
    [int] 4 (LP64): the handle, three [int32_t], the format, the offset,
    4 bytes of padding and the pool. *)
Definition sizeof_wl_shm_buffer : Z := 40.

(** [sizeof *buffer + stride * height] as [malloc] receives it: the
    product is an [int], it is converted to [size_t] and the sum is taken
    modulo 2^64. *)
Definition buffer_request (stride height : Z) : Z :=
  (sizeof_wl_shm_buffer + wrap32 (stride * height)) mod 2 ^ 64.

(** Assignment through a pointer: [p->field = ...].  The fields of a
    buffer lie in its block only if the block is not smaller than the
    header; in a smaller block the assignment writes past its end. *)
Definition assign_pool (p : option ptr) (f : wl_shm_pool → wl_shm_pool) : M unit :=
  let* x := eval (deref pools p) in
  match p with
  | Some a => modify (set_pools <[a := f x]>)
  | None => fail InvalidPointer
  end.

Definition assign_buffer (p : option ptr) (f : wl_shm_buffer → wl_shm_buffer) : M unit :=
  let* x := eval (deref buffers p) in
  match p with
  | Some a =>
      if payload x <? 0 then fail InvalidPointer
      else modify (set_buffers <[a := Buffer_object (f (header x)) (payload x)]>)
  | None => fail InvalidPointer
  end.

(** [mmap(NULL, size, PROT_READ | PROT_WRITE, MAP_SHARED, fd, 0)]. *)
Definition mmap (answer : Z) (len : Z) (fd : Z) : M Z :=
  if answer =? MAP_FAILED then ret MAP_FAILED
  else modify (set_mappings <[answer := len]>) ;; ret answer.

Definition munmap (addr len : Z) : M unit :=
  modify (set_mappings (delete addr)) ;; emit (EvMunmap addr len).

(** [mremap(old, old_len, new_len, MREMAP_MAYMOVE)]: on failure the old
    mapping stays as it is. *)
Definition mremap (answer : Z) (old old_len new_len : Z) : M Z :=
  if answer =? MAP_FAILED then ret MAP_FAILED
  else modify (set_mappings (λ m, <[answer := new_len]> (delete old m))) ;;
       ret answer.

Definition close (fd : Z) : M unit :=
  modify (set_fds (λ s, s ∖ {[fd]})) ;; emit (EvClose fd).

Definition wl_resource_create (ok : bool) (interface : wl_interface) (id : Z)
  : M (option ptr) :=
  λ h, if ok
       then let r := fresh (dom (resources h)) in
            Ok (Some r,
                set_resources <[r := Wl_resource interface id None None None]> h, [])
       else Ok (None, h, []).

Definition wl_resource_set_implementation (resource : option ptr)
    (impl : implementation) (data : option ptr) (destroy : option destructor)
  : M unit :=
  let* r := eval (deref resources resource) in
  match resource with
  | Some a =>
      modify (set_resources
                <[a := Wl_resource (res_interface r) (res_id r) (Some impl) data destroy]>)
  | None => fail InvalidPointer
  end.

Definition wl_resource_get_user_data (resource : option ptr) : E (option ptr) :=
  let+ r := deref resources resource in eret (res_data r).

Definition wl_resource_post_error (resource : ptr) (code : wl_shm_error) : M unit :=
  emit (EvPostError resource code).

Definition wl_client_post_no_memory : M unit := emit EvNoMemory.

#[global] Instance wl_interface_eq_dec : EqDecision wl_interface.
Proof. solve_decision. Defined.
#[global] Instance implementation_eq_dec : EqDecision implementation.
Proof. solve_decision. Defined.

(** Modelled from the spec: [wl_resource_instance_of] of the dispatch
    substrate, "is_instance_of(handle, interface, implementation) ->
    bool": the handle has that interface and is bound to that
    implementation. *)
Definition wl_resource_instance_of (resource : option ptr)
    (interface : wl_interface) (impl : implementation) : E bool :=
  let+ r := deref resources resource in
  eret (bool_decide (res_interface r = interface)
        && bool_decide (res_implementation r = Some impl)).

(** ** wayland-shm.c *)

Definition shm_pool_unref (pool : option ptr) : M unit :=
  let* p := eval (deref pools pool) in
  assign_pool pool (set_refcount (wrap32 (refcount p - 1))) ;;
  let* p := eval (deref pools pool) in
  if negb (refcount p =? 0) then ret tt
  else munmap (data p) (size p) ;; free_pool pool.

Definition destroy_buffer (resource : ptr) : M unit :=
  let* buffer := eval (wl_resource_get_user_data (Some resource)) in
  let* b := eval (deref buffers buffer) in
  match pool (header b) with
  | Some _ => shm_pool_unref (pool (header b))
  | None => ret tt
  end ;;
  free_buffer buffer.

(** The two [case] labels of the [switch (format)] that both buffer
    constructors start with. *)
Definition switch_format (format : Z) : bool :=
  (format =? WL_SHM_FORMAT_ARGB8888) || (format =? WL_SHM_FORMAT_XRGB8888).

(** The condition of the [if] at lines 106-108. *)
Definition invalid_geometry (pool : option ptr) (offset width height stride : Z)
  : E bool :=
  eret (offset <? 0) ||| eret (width <=? 0) ||| eret (height <=? 0)
  ||| eret (stride <? width)
  ||| (let+ q := c_div INT32_MAX stride in eret (q <=? height))
  ||| (let+ p := deref pools pool in
       eret (offset >? wrap32 (size p - wrap32 (stride * height)))).

Definition shm_pool_create_buffer (malloc_ok create_ok : bool)
    (resource : ptr) (id offset width height stride format : Z) : M unit :=
  let* pool := eval (wl_resource_get_user_data (Some resource)) in
  if negb (switch_format format) then
    wl_resource_post_error resource WL_SHM_ERROR_INVALID_FORMAT
  else
  let* invalid := eval (invalid_geometry pool offset width height stride) in
  if invalid : bool then
    wl_resource_post_error resource WL_SHM_ERROR_INVALID_STRIDE
  else
  let* buffer := malloc_buffer malloc_ok 0 in
  match buffer with
  | None => wl_client_post_no_memory
  | Some _ =>
      assign_buffer buffer (set_width width) ;;
      assign_buffer buffer (set_height height) ;;
      assign_buffer buffer (set_format format) ;;
      assign_buffer buffer (set_stride stride) ;;
      assign_buffer buffer (set_offset offset) ;;
      assign_buffer buffer (set_pool pool) ;;
      let* p := eval (deref pools pool) in
      assign_pool pool (set_refcount (wrap32 (refcount p + 1))) ;;
      let* r := wl_resource_create create_ok wl_buffer_interface id in
      assign_buffer buffer (set_resource r) ;;
      match r with
      | None =>
          wl_client_post_no_memory ;;
          shm_pool_unref pool ;;
          free_buffer buffer
      | Some _ =>
          wl_resource_set_implementation r shm_buffer_interface buffer
            (Some Destroy_buffer)
      end
  end.

Definition destroy_pool (resource : ptr) : M unit :=
  let* pool := eval (wl_resource_get_user_data (Some resource)) in
  shm_pool_unref pool.

(** Modelled from the spec: [wl_resource_destroy] of the dispatch
    substrate, which runs the destructor callback the handle was bound
    with and then invalidates the handle. *)
Definition wl_resource_destroy (resource : ptr) : M unit :=
  let* r := eval (deref resources (Some resource)) in
  match res_destroy r with
  | Some Destroy_buffer => destroy_buffer resource
  | Some Destroy_pool => destroy_pool resource
  | None => ret tt
  end ;;
  modify (set_resources (delete resource)).

Definition shm_buffer_destroy (resource : ptr) : M unit :=
  wl_resource_destroy resource.

Definition shm_pool_destroy (resource : ptr) : M unit :=
  wl_resource_destroy resource.

Definition shm_pool_resize (mremap_answer : Z) (resource : ptr) (size : Z) : M unit :=
  let* pool := eval (wl_resource_get_user_data (Some resource)) in
  let* p := eval (deref pools pool) in
  let* data := mremap mremap_answer (pool_data p) (pool_size p) size in
  if data =? MAP_FAILED then
    wl_resource_post_error resource WL_SHM_ERROR_INVALID_FD
  else
    assign_pool pool (set_data data) ;;
    assign_pool pool (set_size size).

(** The labels at the end of [shm_create_pool]; [err_close] falls
    through into [err_free]. *)
Definition err_free (pool : option ptr) : M unit := free_pool pool.
Definition err_close (fd : Z) (pool : option ptr) : M unit :=
  close fd ;; err_free pool.

Definition shm_create_pool (malloc_ok : bool) (mmap_answer : Z) (create_ok : bool)
    (resource : ptr) (id fd size : Z) : M unit :=
  let* pool := malloc_pool malloc_ok in
  match pool with
  | None => wl_client_post_no_memory ;; err_close fd pool
  | Some _ =>
      if size <=? 0 then
        wl_resource_post_error resource WL_SHM_ERROR_INVALID_STRIDE ;;
        err_free pool
      else
        assign_pool pool (set_refcount 1) ;;
        assign_pool pool (set_size size) ;;
        let* a := mmap mmap_answer size fd in
        assign_pool pool (set_data a) ;;
        if a =? MAP_FAILED then
          wl_resource_post_error resource WL_SHM_ERROR_INVALID_FD ;;
          err_free pool
        else
          close fd ;;
          let* r := wl_resource_create create_ok wl_shm_pool_interface id in
          assign_pool pool (set_pool_resource r) ;;
          match r with
          | None =>
              wl_client_post_no_memory ;;
              let* p := eval (deref pools pool) in
              munmap (pool_data p) (pool_size p) ;;
              free_pool pool
          | Some _ =>
              wl_resource_set_implementation r shm_pool_interface pool
                (Some Destroy_pool)
          end
  end.

Definition wl_shm_buffer_create (malloc_ok create_ok : bool)
    (id width height stride format : Z) : M (option ptr) :=
  if negb (switch_format format) then ret None
  else
  let* buffer :=
    malloc_buffer malloc_ok (buffer_request stride height - sizeof_wl_shm_buffer) in
  match buffer with
  | None => ret None
  | Some _ =>
      assign_buffer buffer (set_width width) ;;
      assign_buffer buffer (set_height height) ;;
      assign_buffer buffer (set_format format) ;;
      assign_buffer buffer (set_stride stride) ;;
      assign_buffer buffer (set_offset 0) ;;
      assign_buffer buffer (set_pool None) ;;
      let* r := wl_resource_create create_ok wl_buffer_interface id in
      assign_buffer buffer (set_resource r) ;;
      match r with
      | None => free_buffer buffer ;; ret None
      | Some _ =>
          wl_resource_set_implementation r shm_buffer_interface buffer
            (Some Destroy_buffer) ;;
          ret buffer
      end
  end.

Definition wl_shm_buffer_get (resource : option ptr) : E (option ptr) :=
  match resource with
  | None => eret None
  | Some _ =>
      let+ instance := wl_resource_instance_of resource wl_buffer_interface
                         shm_buffer_interface in
      if instance : bool then wl_resource_get_user_data resource else eret None
  end.

Definition wl_shm_buffer_get_stride (buffer : option ptr) : E Z :=
  let+ b := deref buffers buffer in eret (stride (header b)).

(** Where the pixels are: an address inside a mapping, or the bytes that
    follow the header of a buffer object ([buffer + 1]). *)
Inductive address : Set :=
| Mapped (a : Z)
| Inline (buffer : option ptr).

Definition wl_shm_buffer_get_data (buffer : option ptr) : E address :=
  let+ b := deref buffers buffer in
  match pool (header b) with
  | Some _ =>
      let+ p := deref pools (pool (header b)) in
      eret (Mapped (data p + offset (header b)))
  | None => eret (Inline buffer)
  end.

Definition wl_shm_buffer_get_format (buffer : option ptr) : E Z :=
  let+ b := deref buffers buffer in eret (format (header b)).

Definition wl_shm_buffer_get_width (buffer : option ptr) : E Z :=
  let+ b := deref buffers buffer in eret (width (header b)).

Definition wl_shm_buffer_get_height (buffer : option ptr) : E Z :=
  let+ b := deref buffers buffer in eret (height (header b)).

(** ** Requests

    The request tables [shm_interface], [shm_pool_interface] and
    [shm_buffer_interface]: one constructor per entry, carrying the
    arguments of the request and the answers of the environment. *)

Inductive request : Set :=
| Create_pool (malloc_ok : bool) (mmap_answer : Z) (create_ok : bool)
    (resource : ptr) (id fd size : Z)
| Pool_create_buffer (malloc_ok create_ok : bool) (resource : ptr)
    (id offset width height stride format : Z)
| Pool_destroy (resource : ptr)
| Pool_resize (mremap_answer : Z) (resource : ptr) (size : Z)
| Buffer_destroy (resource : ptr).

Definition dispatch (r : request) : M unit :=
  match r with
  | Create_pool malloc_ok mmap_answer create_ok resource id fd size =>
      shm_create_pool malloc_ok mmap_answer create_ok resource id fd size
  | Pool_create_buffer malloc_ok create_ok resource id offset width height stride format =>
      shm_pool_create_buffer malloc_ok create_ok resource id offset width height
        stride format
  | Pool_destroy resource => shm_pool_destroy resource
  | Pool_resize mremap_answer resource size =>
      shm_pool_resize mremap_answer resource size
  | Buffer_destroy resource => shm_buffer_destroy resource
  end.

Fixpoint run (rs : list request) : M unit :=
  match rs with
  | [] => ret tt
  | r :: rs' => dispatch r ;; run rs'
  end.

(** ** Vocabulary of the statements *)

(** The pool object a pointer leads to. *)
Definition pool_at (h : heap) (pool : option ptr) : option wl_shm_pool :=
  a ← pool; pools h !! a.

(** The [close] calls of a trace. *)
Definition closes (t : list event) : list Z :=
  omap (λ e, match e with EvClose fd => Some fd | _ => None end) t.

(** An outcome with [t] put in front of its trace. *)
Definition after {A} (t : list event) (r : result (A * heap * list event))
  : result (A * heap * list event) :=
  match r with
  | Ok (a, h, t') => Ok (a, h, t ++ t')
  | Fault f => Fault f
  end.

(** The heap once a buffer object [b] with handle [r] has been added. *)
Definition with_buffer (b r : ptr) (id : Z) (hdr : wl_shm_buffer) (extra : Z)
    (h : heap) : heap :=
  Heap (pools h)
    (<[b := Buffer_object (set_resource (Some r) hdr) extra]> (buffers h))
    (<[r := Wl_resource wl_buffer_interface id (Some shm_buffer_interface)
              (Some b) (Some Destroy_buffer)]> (resources h))
    (mappings h) (fds h).

(** The geometry clauses as the code enforces them: the stride is
    compared with the width in pixels, and the height with the quotient
    of [INT32_MAX] by the stride. *)
Definition fits (offset width height stride pool_size : Z) : Prop :=
  0 <= offset ∧ 0 < width ∧ 0 < height ∧ width <= stride ∧
  stride * height <= INT32_MAX ∧ offset + stride * height <= pool_size.

(** [r] is a request that gives back one reference to the pool [pp]: the
    destruction of a handle of the pool, or of the handle of a buffer
    carved from it. *)
Definition releases (h : heap) (pp : ptr) (r : request) : Prop :=
  match r with
  | Pool_destroy res =>
      ∃ x, resources h !! res = Some x ∧ res_destroy x = Some Destroy_pool ∧
           res_data x = Some pp
  | Buffer_destroy res =>
      ∃ x b o, resources h !! res = Some x ∧
               res_destroy x = Some Destroy_buffer ∧ res_data x = Some b ∧
               buffers h !! b = Some o ∧ resource (header o) = Some res ∧
               pool (header o) = Some pp
  | _ => False
  end.

(** The references to [pp] that are out: the pool object is live, its
    count is their number, and each is released by its own request. *)
Definition referenced (h : heap) (pp : ptr) (p : wl_shm_pool) (refs : list request)
  : Prop :=
  pools h !! pp = Some (set_refcount (Z.of_nat (length refs)) p) ∧
  Z.of_nat (length refs) <= INT32_MAX ∧
  NoDup refs ∧ Forall (releases h pp) refs.

(** A successful creation: the request with both answers of the
    environment positive, on arguments that the two checks let through. *)
Record creation : Set := Creation {
  c_id : Z; c_offset : Z; c_width : Z; c_height : Z; c_stride : Z; c_format : Z
}.

Definition create (res : ptr) (c : creation) : request :=
  Pool_create_buffer true true res (c_id c) (c_offset c) (c_width c) (c_height c)
    (c_stride c) (c_format c).

Definition passes (h : heap) (pp : ptr) (c : creation) : Prop :=
  switch_format (c_format c) = true ∧
  fst (invalid_geometry (Some pp) (c_offset c) (c_width c) (c_height c)
         (c_stride c) h) = Ok false.

(** ** The invariant of the reference counts

    What a pool is counted for: the handles bound to [destroy_pool] whose
    user data it is, and the buffers whose [pool] field it is. *)

#[global] Instance destructor_eq_dec : EqDecision destructor.
Proof. solve_decision. Defined.

Definition is_pool_handle (pp : ptr) (x : wl_resource) : Prop :=
  res_destroy x = Some Destroy_pool ∧ res_data x = Some pp.

Definition is_pool_buffer (pp : ptr) (o : buffer_object) : Prop :=
  pool (header o) = Some pp.

#[global] Instance is_pool_handle_dec pp x : Decision (is_pool_handle pp x).
Proof. unfold is_pool_handle. apply _. Defined.
#[global] Instance is_pool_buffer_dec pp o : Decision (is_pool_buffer pp o).
Proof. unfold is_pool_buffer. apply _. Defined.

(** The number of entries of a map whose value satisfies [P]. *)
Definition count {A} (P : A → Prop) `{∀ x, Decision (P x)} (m : gmap ptr A) : nat :=
  base.size (filter (λ kx, P kx.2) m).

Definition references (h : heap) (pp : ptr) : Z :=
  Z.of_nat (count (is_pool_handle pp) (resources h)
            + count (is_pool_buffer pp) (buffers h)).

Record consistent (h : heap) : Prop := Consistent {
  pool_counted : ∀ pp p, pools h !! pp = Some p →
    refcount p = references h pp ∧ 1 <= refcount p <= INT32_MAX;
  pool_mapped : ∀ pp p, pools h !! pp = Some p →
    mappings h !! data p = Some (size p);
  pool_regions : ∀ pp pp' p p', pools h !! pp = Some p → pools h !! pp' = Some p' →
    data p = data p' → pp = pp';
  buffer_pool_live : ∀ b o pp, buffers h !! b = Some o → pool (header o) = Some pp →
    is_Some (pools h !! pp);
  handle_pool_live : ∀ r x, resources h !! r = Some x →
    res_destroy x = Some Destroy_pool →
    ∃ pp, res_data x = Some pp ∧ is_Some (pools h !! pp);
  handle_buffer_live : ∀ r x, resources h !! r = Some x →
    res_destroy x = Some Destroy_buffer →
    ∃ b o, res_data x = Some b ∧ buffers h !! b = Some o ∧
           resource (header o) = Some r;
  handle_tables : ∀ r x, resources h !! r = Some x →
    (res_implementation x = Some shm_pool_interface →
     res_destroy x = Some Destroy_pool) ∧
    (res_implementation x = Some shm_buffer_interface →
     res_destroy x = Some Destroy_buffer)
}.

(** A request the dispatcher can deliver in state [h]: it arrives on a
    live handle bound to the table it belongs to; the count of the pool
    has room for one more reference; and the address that [mmap] or
    [mremap] answers with is not that of another mapping. *)
Definition admissible (h : heap) (r : request) : Prop :=
  match r with
  | Create_pool _ answer _ _ _ _ _ =>
      answer ≠ MAP_FAILED → mappings h !! answer = None
  | Pool_create_buffer _ _ res _ _ _ _ _ _ =>
      ∃ x, resources h !! res = Some x ∧
           res_implementation x = Some shm_pool_interface ∧
           ∀ pp p, res_data x = Some pp → pools h !! pp = Some p →
                   refcount p < INT32_MAX
  | Pool_destroy res =>
      ∃ x, resources h !! res = Some x ∧
           res_implementation x = Some shm_pool_interface
  | Pool_resize answer res _ =>
      ∃ x, resources h !! res = Some x ∧
           res_implementation x = Some shm_pool_interface ∧
           (answer = MAP_FAILED ∨ mappings h !! answer = None ∨
            ∃ pp p, res_data x = Some pp ∧ pools h !! pp = Some p ∧ data p = answer)
  | Buffer_destroy res =>
      ∃ x, resources h !! res = Some x ∧
           res_implementation x = Some shm_buffer_interface
  end.

Fixpoint admissible_run (h : heap) (rs : list request) : Prop :=
  match rs with
  | [] => True
  | r :: rs' =>
      admissible h r ∧
      ∀ h' t, dispatch r h = Ok (tt, h', t) → admissible_run h' rs'
  end.

(** ** Buffers inside their pool

    The size of every pool is a non-negative [int], and every buffer
    carved from a pool starts and ends inside it. *)
Definition in_bounds (h : heap) : Prop :=
  (∀ pp p, pools h !! pp = Some p → 0 <= size p <= INT32_MAX) ∧
  (∀ b o pp p, buffers h !! b = Some o → pool (header o) = Some pp →
               pools h !! pp = Some p →
               0 <= offset (header o) ∧
               0 < stride (header o) * height (header o) ∧
               offset (header o) + stride (header o) * height (header o) <= size p).

(** A request that makes no pool smaller; the sizes it carries are
    [int32_t]. *)
Definition growing (h : heap) (r : request) : Prop :=
  match r with
  | Create_pool _ _ _ _ _ _ sz => sz <= INT32_MAX
  | Pool_resize _ res sz =>
      sz <= INT32_MAX ∧
      ∀ x pp p, resources h !! res = Some x → res_data x = Some pp →
                pools h !! pp = Some p → size p <= sz
  | _ => True
  end.

Fixpoint growing_run (h : heap) (rs : list request) : Prop :=
  match rs with
  | [] => True
  | r :: rs' =>
      admissible h r ∧ growing h r ∧
      ∀ h' t, dispatch r h = Ok (tt, h', t) → growing_run h' rs'
  end.

(** ** The global

    [bind_shm] also sends [wl_shm.format] events, which the requests
    above never do. *)

(** What [bind_shm] sends besides the calls of [event]: the
    [wl_shm.format] events. *)
Inductive shm_event : Set :=
| SendFormat (resource : ptr) (format : Z)
| Posted (e : event).

(** [bind_shm]: the handle of the global is created and bound to
    [shm_interface] without a destructor, then the two formats are
    advertised on it. *)
Definition bind_shm (create_ok : bool) (data : option ptr) (id : Z)
  : heap → result (unit * heap * list shm_event) :=
  λ h, match wl_resource_create create_ok wl_shm_interface id h with
       | Ok (None, h1, t) => Ok (tt, h1, (Posted <$> t) ++ [Posted EvNoMemory])
       | Ok (Some r, h1, t) =>
           match wl_resource_set_implementation (Some r) shm_interface data None h1 with
           | Ok (_, h2, t') =>
               Ok (tt, h2,
                   (Posted <$> t ++ t') ++
                   [SendFormat r WL_SHM_FORMAT_ARGB8888;
                    SendFormat r WL_SHM_FORMAT_XRGB8888])
           | Fault f => Fault f
           end
       | Fault f => Fault f
       end.

(** The formats a trace advertises. *)
Definition advertised (t : list shm_event) : list Z :=
  omap (λ e, match e with SendFormat _ f => Some f | Posted _ => None end) t.

(** ** Example states

    A client that has bound [wl_shm] (handle 1) and holds descriptor 5;
    the same client after it has created a pool of 4096 bytes from that
    descriptor (pool object 1, handle 2, mapped at address 4096). *)

Definition bound_heap : heap :=
  Heap ∅ ∅
    {[ 1%positive := Wl_resource wl_shm_interface 1 (Some shm_interface) None None ]}
    ∅ {[ 5 ]}.

Definition pool_heap : heap :=
  Heap {[ 1%positive := Wl_shm_pool (Some 2%positive) 1 4096 4096 ]} ∅
    {[ 1%positive := Wl_resource wl_shm_interface 1 (Some shm_interface) None None;
       2%positive := Wl_resource wl_shm_pool_interface 2 (Some shm_pool_interface)
                       (Some 1%positive) (Some Destroy_pool) ]}
    {[ 4096 := 4096 ]} ∅.

(** The pool heap after the request of the spec's scenario (a): a 32x32
    ARGB buffer of stride 128 at offset 0 (buffer object 1, handle 3). *)
Definition buffer_heap : heap :=
  with_buffer 1%positive 3%positive 3
    (Wl_shm_buffer None 32 32 128 WL_SHM_FORMAT_ARGB8888 0 (Some 1%positive)) 0
    (set_pools <[1%positive := Wl_shm_pool (Some 2%positive) 2 4096 4096]> pool_heap).

(** ** Symbolic execution *)

Ltac unfold_monad :=
  repeat progress
    (unfold bind, ret, eval, ebind, eret, emit, modify, fail, deref,
       assign_pool, assign_buffer, free_pool, free_buffer, munmap, close,
       err_free, err_close, mmap, mremap,
       wl_resource_get_user_data, wl_resource_post_error, wl_client_post_no_memory,
       wl_resource_set_implementation, wl_resource_instance_of,
       set_pools, set_buffers, set_resources, set_mappings, set_fds;
     simpl).

Tactic Notation "exec" "with" constr(H) :=
  repeat progress (unfold_monad; rewrite ?H, ?lookup_insert_eq).
Tactic Notation "exec" :=
  repeat progress (unfold_monad; rewrite ?lookup_insert_eq).

(** * Properties *)

(** ** Arithmetic of the bounds check *)

Lemma wrap32_small x : in_int32 x → wrap32 x = x.
Proof.
  unfold in_int32, INT32_MIN, INT32_MAX, wrap32. intros Hx.
  rewrite Z.mod_small; lia.
Qed.

Lemma quot_INT32_MAX stride :
  0 < stride → wrap32 (Z.quot INT32_MAX stride) = INT32_MAX / stride.
Proof.
  intros Hs. rewrite Z.quot_div_nonneg by (unfold INT32_MAX; lia).
  apply wrap32_small. unfold in_int32.
  assert (0 <= INT32_MAX / stride) by (apply Z.div_pos; unfold INT32_MAX; lia).
  assert (INT32_MAX / stride <= INT32_MAX)
    by (apply Z.div_le_upper_bound; unfold INT32_MAX; nia).
  unfold INT32_MIN, INT32_MAX in *. lia.
Qed.

(** The condition, clause by clause, with the divisions it evaluates. *)
Lemma invalid_geometry_unfold pool offset width height stride h :
  invalid_geometry pool offset width height stride h =
  if offset <? 0 then (Ok true, [])
  else if width <=? 0 then (Ok true, [])
  else if height <=? 0 then (Ok true, [])
  else if stride <? width then (Ok true, [])
  else if INT32_MAX / stride <=? height then (Ok true, [stride])
  else match pool_at h pool with
       | Some p =>
           (Ok (offset >? wrap32 (size p - wrap32 (stride * height))), [stride])
       | None => (Fault InvalidPointer, [stride])
       end.
Proof.
  unfold invalid_geometry, c_or, ebind, eret, c_div, deref, pool_at.
  destruct (offset <? 0) eqn:Ho; [done|].
  destruct (width <=? 0) eqn:Hw; [done|].
  destruct (height <=? 0) eqn:Hh; [done|].
  destruct (stride <? width) eqn:Hs; [done|].
  assert (0 < stride) as Hpos by lia.
  rewrite quot_INT32_MAX by done.
  destruct (stride =? 0) eqn:Hz; [lia|].
  destruct (INT32_MAX / stride <=? height); [done|].
  destruct pool as [a|]; simpl; [|done].
  by destruct (pools h !! a).
Qed.

(** Below the quotient the product is in range, so the multiplication
    that the last clause performs does not wrap. *)
Lemma product_below_quotient stride height :
  0 < stride → 0 < height → height < INT32_MAX / stride →
  0 < stride * height < INT32_MAX.
Proof.
  intros Hs Hh Hq.
  assert (stride * (INT32_MAX / stride) <= INT32_MAX)
    by (apply Z.mul_div_le; lia).
  nia.
Qed.

Lemma quotient_below_overflow stride height :
  0 < stride → 0 < height → INT32_MAX < stride * height →
  INT32_MAX / stride <= height.
Proof.
  intros Hs Hh Hov.
  destruct (Z_le_gt_dec (INT32_MAX / stride) height) as [|Hgt]; [done|].
  pose proof (product_below_quotient stride height Hs Hh ltac:(lia)). lia.
Qed.

Lemma accepted_fits pool p offset width height stride h :
  pool_at h pool = Some p → 0 <= size p <= INT32_MAX →
  fst (invalid_geometry pool offset width height stride h) = Ok false →
  fits offset width height stride (size p) ∧ height < INT32_MAX / stride.
Proof.
  intros Hp Hsize. rewrite invalid_geometry_unfold, Hp.
  destruct (offset <? 0) eqn:Ho; [done|].
  destruct (width <=? 0) eqn:Hw; [done|].
  destruct (height <=? 0) eqn:Hh; [done|].
  destruct (stride <? width) eqn:Hs; [done|].
  destruct (INT32_MAX / stride <=? height) eqn:Hq; [done|].
  simpl. intros [= Hlast].
  pose proof (product_below_quotient stride height) as Hprod.
  rewrite (wrap32_small (stride * height)) in Hlast
    by (unfold in_int32, INT32_MIN, INT32_MAX in *; lia).
  rewrite wrap32_small in Hlast
    by (unfold in_int32, INT32_MIN, INT32_MAX in *; lia).
  unfold fits. lia.
Qed.

Lemma fits_accepted pool p offset width height stride h :
  pool_at h pool = Some p → 0 <= size p <= INT32_MAX →
  fits offset width height stride (size p) → height < INT32_MAX / stride →
  fst (invalid_geometry pool offset width height stride h) = Ok false.
Proof.
  intros Hp Hsize (Ho & Hw & Hh & Hs & Hmul & Hend) Hq.
  rewrite invalid_geometry_unfold, Hp.
  destruct (offset <? 0) eqn:?; [lia|].
  destruct (width <=? 0) eqn:?; [lia|].
  destruct (height <=? 0) eqn:?; [lia|].
  destruct (stride <? width) eqn:?; [lia|].
  destruct (INT32_MAX / stride <=? height) eqn:?; [lia|].
  simpl. f_equal.
  pose proof (product_below_quotient stride height) as Hprod.
  rewrite (wrap32_small (stride * height))
    by (unfold in_int32, INT32_MIN, INT32_MAX in *; lia).
  rewrite wrap32_small
    by (unfold in_int32, INT32_MIN, INT32_MAX in *; lia).
  lia.
Qed.

Lemma unfit_rejected pool p offset width height stride h :
  pool_at h pool = Some p → 0 <= size p <= INT32_MAX →
  ¬ fits offset width height stride (size p) →
  fst (invalid_geometry pool offset width height stride h) = Ok true.
Proof.
  intros Hp Hsize Hno.
  destruct (fst (invalid_geometry pool offset width height stride h)) as [[]|f] eqn:Hv.
  - done.
  - destruct Hno. by eapply accepted_fits.
  - revert Hv. rewrite invalid_geometry_unfold, Hp.
    by repeat case_match.
Qed.

(** The check reads the heap only for the size of the pool. *)
Lemma invalid_geometry_same_size pool offset width height stride h h' :
  size <$> pool_at h' pool = size <$> pool_at h pool →
  invalid_geometry pool offset width height stride h' =
  invalid_geometry pool offset width height stride h.
Proof.
  intros Hsz. rewrite !invalid_geometry_unfold.
  destruct (pool_at h' pool), (pool_at h pool); simplify_eq/=; try done.
  by rewrite Hsz.
Qed.

Lemma overflow_rejected pool offset width height stride h :
  ¬ in_int32 (stride * height) →
  fst (invalid_geometry pool offset width height stride h) = Ok true.
Proof.
  intros Hov. rewrite invalid_geometry_unfold.
  destruct (offset <? 0) eqn:?; [done|].
  destruct (width <=? 0) eqn:?; [done|].
  destruct (height <=? 0) eqn:?; [done|].
  destruct (stride <? width) eqn:?; [done|].
  assert (INT32_MAX / stride <= height) as Hq.
  { apply quotient_below_overflow; [lia..|].
    unfold in_int32, INT32_MIN, INT32_MAX in *. nia. }
  destruct (INT32_MAX / stride <=? height) eqn:?; [done|lia].
Qed.

(** ** The paths through [shm_pool_create_buffer] *)

Lemma create_buffer_invalid_format malloc_ok create_ok res rp id offset width height
    stride format h :
  resources h !! res = Some rp → switch_format format = false →
  shm_pool_create_buffer malloc_ok create_ok res id offset width height stride format h
  = Ok (tt, h, [EvPostError res WL_SHM_ERROR_INVALID_FORMAT]).
Proof.
  intros Hres Hfmt. unfold shm_pool_create_buffer.
  exec with Hres. by rewrite Hfmt.
Qed.

Lemma create_buffer_invalid_geometry malloc_ok create_ok res rp id offset width height
    stride format h :
  resources h !! res = Some rp → switch_format format = true →
  fst (invalid_geometry (res_data rp) offset width height stride h) = Ok true →
  shm_pool_create_buffer malloc_ok create_ok res id offset width height stride format h
  = Ok (tt, h, [EvPostError res WL_SHM_ERROR_INVALID_STRIDE]).
Proof.
  intros Hres Hfmt Hgeo. unfold shm_pool_create_buffer.
  exec with Hres. rewrite Hfmt. simpl. by rewrite Hgeo.
Qed.

Lemma create_buffer_no_memory res rp id offset width height stride format h create_ok :
  resources h !! res = Some rp → switch_format format = true →
  fst (invalid_geometry (res_data rp) offset width height stride h) = Ok false →
  shm_pool_create_buffer false create_ok res id offset width height stride format h
  = Ok (tt, h, [EvNoMemory]).
Proof.
  intros Hres Hfmt Hgeo. unfold shm_pool_create_buffer, malloc_buffer.
  exec with Hres. rewrite Hfmt. simpl. by rewrite Hgeo.
Qed.

Lemma create_buffer_created res rp pp p id offset width height stride format h :
  resources h !! res = Some rp → res_data rp = Some pp →
  pools h !! pp = Some p → switch_format format = true →
  fst (invalid_geometry (Some pp) offset width height stride h) = Ok false →
  shm_pool_create_buffer true true res id offset width height stride format h
  = Ok (tt,
        with_buffer (fresh (dom (buffers h))) (fresh (dom (resources h))) id
          (Wl_shm_buffer None width height stride format offset (Some pp)) 0
          (set_pools <[pp := set_refcount (wrap32 (refcount p + 1)) p]> h),
        []).
Proof.
  intros Hres Hdata Hp Hfmt Hgeo.
  unfold shm_pool_create_buffer, malloc_buffer, wl_resource_create.
  exec with Hres. rewrite Hdata, Hfmt. simpl. rewrite Hgeo. exec with Hp.
  by rewrite !insert_insert_eq.
Qed.

Lemma fresh_unused {A} (m : gmap ptr A) : m !! fresh (dom m) = None.
Proof. apply not_elem_of_dom, is_fresh. Qed.

Lemma heap_eta h : Heap (pools h) (buffers h) (resources h) (mappings h) (fds h) = h.
Proof. by destruct h. Qed.

(** Taking a reference and giving it back leaves the count as it was. *)
Lemma wrap32_succ_pred n :
  1 <= n <= INT32_MAX →
  wrap32 (wrap32 (n + 1) - 1) = n ∧ wrap32 (wrap32 (n + 1) - 1) ≠ 0.
Proof.
  intros Hn. unfold INT32_MAX in Hn.
  destruct (decide (n = 2147483647)) as [->|Hne]; [by vm_compute|].
  rewrite (wrap32_small (n + 1)) by (unfold in_int32, INT32_MIN, INT32_MAX; lia).
  replace (n + 1 - 1) with n by lia.
  rewrite wrap32_small by (unfold in_int32, INT32_MIN, INT32_MAX; lia). lia.
Qed.

Lemma create_buffer_unwound res rp pp p id offset width height stride format h :
  resources h !! res = Some rp → res_data rp = Some pp →
  pools h !! pp = Some p → 1 <= refcount p <= INT32_MAX →
  switch_format format = true →
  fst (invalid_geometry (Some pp) offset width height stride h) = Ok false →
  shm_pool_create_buffer true false res id offset width height stride format h
  = Ok (tt, h, [EvNoMemory]).
Proof.
  intros Hres Hdata Hp Hcount Hfmt Hgeo.
  destruct (wrap32_succ_pred _ Hcount) as [Hback Hnz].
  unfold shm_pool_create_buffer, shm_pool_unref, malloc_buffer, wl_resource_create.
  exec with Hres. rewrite Hdata, Hfmt. simpl. rewrite Hgeo. exec with Hp.
  rewrite Hback. apply Z.eqb_neq in Hnz. rewrite Hback in Hnz. rewrite Hnz. simpl.
  exec. rewrite !insert_insert_eq, delete_insert_id by apply fresh_unused.
  replace (set_refcount (refcount p) (set_refcount (wrap32 (refcount p + 1)) p))
    with p by by destruct p.
  by rewrite insert_id, heap_eta.
Qed.

(** ** Reference counting *)

Lemma shm_pool_unref_spec pp p h :
  pools h !! pp = Some p →
  shm_pool_unref (Some pp) h =
  if wrap32 (refcount p - 1) =? 0
  then Ok (tt, Heap (delete pp (pools h)) (buffers h) (resources h)
                 (delete (data p) (mappings h)) (fds h),
           [EvMunmap (data p) (size p)])
  else Ok (tt, Heap (<[pp := set_refcount (wrap32 (refcount p - 1)) p]> (pools h))
                 (buffers h) (resources h) (mappings h) (fds h), []).
Proof.
  intros Hp. unfold shm_pool_unref. exec with Hp.
  destruct (wrap32 (refcount p - 1) =? 0); exec; [|done].
  by rewrite delete_insert_eq.
Qed.

Lemma destroy_pool_handle res x pp p h :
  resources h !! res = Some x → res_destroy x = Some Destroy_pool →
  res_data x = Some pp → pools h !! pp = Some p →
  wl_resource_destroy res h =
  if wrap32 (refcount p - 1) =? 0
  then Ok (tt, Heap (delete pp (pools h)) (buffers h) (delete res (resources h))
                 (delete (data p) (mappings h)) (fds h),
           [EvMunmap (data p) (size p)])
  else Ok (tt, Heap (<[pp := set_refcount (wrap32 (refcount p - 1)) p]> (pools h))
                 (buffers h) (delete res (resources h)) (mappings h) (fds h), []).
Proof.
  intros Hres Hkind Hdata Hp. unfold wl_resource_destroy, destroy_pool.
  exec with Hres. rewrite Hkind. exec with Hres. rewrite Hdata.
  rewrite (shm_pool_unref_spec pp p) by done.
  by destruct (wrap32 (refcount p - 1) =? 0); exec.
Qed.

Lemma destroy_buffer_handle res x b o pp p h :
  resources h !! res = Some x → res_destroy x = Some Destroy_buffer →
  res_data x = Some b → buffers h !! b = Some o →
  pool (header o) = Some pp → pools h !! pp = Some p →
  wl_resource_destroy res h =
  if wrap32 (refcount p - 1) =? 0
  then Ok (tt, Heap (delete pp (pools h)) (delete b (buffers h))
                 (delete res (resources h)) (delete (data p) (mappings h)) (fds h),
           [EvMunmap (data p) (size p)])
  else Ok (tt, Heap (<[pp := set_refcount (wrap32 (refcount p - 1)) p]> (pools h))
                 (delete b (buffers h)) (delete res (resources h))
                 (mappings h) (fds h), []).
Proof.
  intros Hres Hkind Hdata Hb Hpool Hp. unfold wl_resource_destroy, destroy_buffer.
  exec with Hres. rewrite Hkind. exec with Hres. rewrite Hdata. exec with Hb.
  rewrite Hpool. rewrite (shm_pool_unref_spec pp p) by done.
  by destruct (wrap32 (refcount p - 1) =? 0); exec with Hb.
Qed.

(** What a release request needs of the heap is the handle it names
    and, for a buffer, the buffer object behind it. *)
Lemma releases_frame h h' pp r :
  releases h pp r →
  (∀ res x, resources h !! res = Some x →
            r = Pool_destroy res ∨ r = Buffer_destroy res →
            resources h' !! res = Some x) →
  (∀ res o b, r = Buffer_destroy res → buffers h !! b = Some o →
              resource (header o) = Some res → buffers h' !! b = Some o) →
  releases h' pp r.
Proof.
  intros Hr Hres Hbuf. destruct r as [| |res| |res]; simpl in *; try done.
  - destruct Hr as (x & Hx & Hkind & Hdata). exists x. eauto.
  - destruct Hr as (x & b & o & Hx & Hkind & Hdata & Hb & Hback & Hpool).
    exists x, b, o. eauto 10.
Qed.

Lemma referenced_perm h pp p refs refs' :
  refs ≡ₚ refs' → referenced h pp p refs → referenced h pp p refs'.
Proof.
  intros Hperm (Hp & Hlen & Hnd & Hall). unfold referenced.
  by rewrite <- Hperm.
Qed.

Lemma wrap32_pred_length {A} (l : list A) :
  Z.of_nat (S (length l)) <= INT32_MAX →
  wrap32 (Z.of_nat (S (length l)) - 1) = Z.of_nat (length l).
Proof.
  intros Hle. replace (Z.of_nat (S (length l)) - 1) with (Z.of_nat (length l)) by lia.
  apply wrap32_small. unfold in_int32, INT32_MIN, INT32_MAX in *. lia.
Qed.

Lemma release_last h pp p r :
  referenced h pp p [r] →
  ∃ h', dispatch r h = Ok (tt, h', [EvMunmap (data p) (size p)]) ∧
        pools h' !! pp = None ∧
        mappings h' = delete (data p) (mappings h).
Proof.
  intros (Hp & Hlen & Hnd & Hall).
  apply Forall_cons in Hall as [Hr _].
  destruct r as [| |res| |res]; simpl in Hr; try done.
  - destruct Hr as (x & Hx & Hkind & Hdata). simpl.
    unfold shm_pool_destroy.
    rewrite (destroy_pool_handle _ _ _ _ _ Hx Hkind Hdata Hp). simpl.
    eexists. split; [done|]. simpl. by rewrite lookup_delete_eq.
  - destruct Hr as (x & b & o & Hx & Hkind & Hdata & Hb & Hback & Hpool). simpl.
    unfold shm_buffer_destroy.
    rewrite (destroy_buffer_handle _ _ _ _ _ _ _ Hx Hkind Hdata Hb Hpool Hp). simpl.
    eexists. split; [done|]. simpl. by rewrite lookup_delete_eq.
Qed.

Lemma release_one h pp p r rest :
  referenced h pp p (r :: rest) → rest ≠ [] →
  ∃ h', dispatch r h = Ok (tt, h', []) ∧
        referenced h' pp p rest ∧ mappings h' = mappings h.
Proof.
  intros (Hp & Hlen & Hnd & Hall) Hrest.
  apply NoDup_cons in Hnd as [Hnotin Hnd].
  apply Forall_cons in Hall as [Hr Hall].
  assert (wrap32 (refcount (set_refcount (Z.of_nat (length (r :: rest))) p) - 1)
          = Z.of_nat (length rest)) as Hdec by by apply wrap32_pred_length.
  assert ((Z.of_nat (length rest) =? 0) = false) as Hnz
    by (destruct rest; [done|simpl; lia]).
  assert (Z.of_nat (length rest) <= INT32_MAX) as Hlen' by (simpl in Hlen; lia).
  destruct r as [| |res| |res]; simpl in Hr; try done.
  - destruct Hr as (x & Hx & Hkind & Hdata). simpl. unfold shm_pool_destroy.
    rewrite (destroy_pool_handle _ _ _ _ _ Hx Hkind Hdata Hp), Hdec, Hnz.
    eexists. split; [done|]. split; [|done].
    split; [by simpl; rewrite lookup_insert_eq|].
    split; [done|]. split; [done|].
    apply Forall_forall. intros r' Hin.
    rewrite Forall_forall in Hall. specialize (Hall r' Hin).
    eapply releases_frame; [done|simpl..].
    + intros res' x' Hx' Hr'. rewrite lookup_delete_ne; [done|].
      intros <-. destruct Hr' as [->| ->]; [done|].
      simpl in Hall. destruct Hall as (? & ? & ? & ? & ? & _). congruence.
    + done.
  - destruct Hr as (x & b & o & Hx & Hkind & Hdata & Hb & Hback & Hpool). simpl.
    unfold shm_buffer_destroy.
    rewrite (destroy_buffer_handle _ _ _ _ _ _ _ Hx Hkind Hdata Hb Hpool Hp), Hdec, Hnz.
    eexists. split; [done|]. split; [|done].
    split; [by simpl; rewrite lookup_insert_eq|].
    split; [done|]. split; [done|].
    apply Forall_forall. intros r' Hin.
    rewrite Forall_forall in Hall. specialize (Hall r' Hin).
    eapply releases_frame; [done|simpl..].
    + intros res' x' Hx' Hr'. rewrite lookup_delete_ne; [done|].
      intros <-. destruct Hr' as [->| ->]; [|done].
      simpl in Hall. destruct Hall as (? & ? & ? & ? ). congruence.
    + intros res' o' b' -> Hb' Hback'. rewrite lookup_delete_ne; [done|].
      intros <-. congruence.
Qed.

Lemma run_cons r rs h :
  run (r :: rs) h =
  match dispatch r h with
  | Ok (_, h1, t1) => after t1 (run rs h1)
  | Fault f => Fault f
  end.
Proof.
  simpl. unfold bind, after.
  destruct (dispatch r h) as [[[[] h1] t1]|]; [|done].
  by destruct (run rs h1) as [[[[] h2] t2]|].
Qed.

Lemma after_after {A} t t' (r : result (A * heap * list event)) :
  after t (after t' r) = after (t ++ t') r.
Proof. destruct r as [[[a h] t'']|]; simpl; [|done]. by rewrite app_assoc. Qed.

Lemma after_nil {A} (r : result (A * heap * list event)) : after [] r = r.
Proof. by destruct r as [[[a h] t]|]. Qed.

Lemma run_app rs rs' h :
  run (rs ++ rs') h =
  match run rs h with
  | Ok (_, h1, t1) => after t1 (run rs' h1)
  | Fault f => Fault f
  end.
Proof.
  revert h. induction rs as [|r rs IH]; intros h.
  - simpl. unfold ret. by rewrite after_nil.
  - rewrite <- app_comm_cons, !run_cons.
    destruct (dispatch r h) as [[[[] h1] t1]|]; [|done].
    rewrite IH. destruct (run rs h1) as [[[[] h2] t2]|]; [|done].
    simpl. by rewrite after_after.
Qed.

Lemma release_prefix pp p pre : ∀ post h,
  referenced h pp p (pre ++ post) → post ≠ [] →
  ∃ h', run pre h = Ok (tt, h', []) ∧
        referenced h' pp p post ∧ mappings h' = mappings h.
Proof.
  induction pre as [|r pre IH]; intros post h Href Hpost.
  - by exists h.
  - rewrite <- app_comm_cons in Href.
    destruct (release_one h pp p r (pre ++ post) Href) as (h1 & Hstep & Href1 & Hmap1).
    { by destruct pre, post. }
    destruct (IH post h1 Href1 Hpost) as (h' & Hrun & Href' & Hmap').
    exists h'. rewrite run_cons, Hstep, Hrun. split; [done|].
    split; [done|congruence].
Qed.

Lemma release_all pp p refs h :
  referenced h pp p refs → refs ≠ [] →
  ∃ h', run refs h = Ok (tt, h', [EvMunmap (data p) (size p)]) ∧
        pools h' !! pp = None ∧
        mappings h' = delete (data p) (mappings h).
Proof.
  intros Href Hne.
  destruct (exists_last Hne) as (pre & r & ->).
  destruct (release_prefix pp p pre [r] h Href) as (h1 & Hrun & Href1 & Hmap1); [done|].
  destruct (release_last h1 pp p r Href1) as (h' & Hstep & Hgone & Hmap').
  exists h'. rewrite run_app, Hrun, run_cons, Hstep. simpl.
  split; [done|]. split; [done|congruence].
Qed.

Lemma passes_same_size h h' pp c :
  size <$> pools h' !! pp = size <$> pools h !! pp →
  passes h pp c → passes h' pp c.
Proof.
  intros Hsz [Hfmt Hgeo]. split; [done|].
  by rewrite (invalid_geometry_same_size _ _ _ _ _ h h').
Qed.

Lemma reference_taken h pp p refs res c :
  referenced h pp p refs → Pool_destroy res ∈ refs → passes h pp c →
  Z.of_nat (S (length refs)) <= INT32_MAX →
  ∃ h' r, dispatch (create res c) h = Ok (tt, h', []) ∧
          referenced h' pp p (Buffer_destroy r :: refs) ∧
          mappings h' = mappings h.
Proof.
  intros (Hp & Hlen & Hnd & Hall) Hin [Hfmt Hgeo] Hroom.
  rewrite Forall_forall in Hall.
  destruct (Hall _ Hin) as (x & Hx & Hkind & Hdata).
  simpl. rewrite (create_buffer_created _ _ _ _ _ _ _ _ _ _ _ Hx Hdata Hp Hfmt Hgeo).
  eexists _, (fresh (dom (resources h))). split; [done|]. split; [|done].
  split.
  { simpl. rewrite lookup_insert_eq. unfold set_refcount. simpl. do 2 f_equal.
    rewrite wrap32_small; [lia|].
    unfold in_int32, INT32_MIN, INT32_MAX in *. lia. }
  split; [done|].
  split.
  { apply NoDup_cons. split; [|done]. intros Hold.
    destruct (Hall _ Hold) as (? & ? & ? & Hsome & _).
    by rewrite fresh_unused in Hsome. }
  apply Forall_cons. split.
  - simpl. eexists _, _, _. rewrite !lookup_insert_eq. done.
  - apply Forall_forall. intros r' Hr'. specialize (Hall r' Hr').
    eapply releases_frame; [done|simpl..].
    + intros res' x' Hx' _. rewrite lookup_insert_ne; [done|].
      intros <-. by rewrite fresh_unused in Hx'.
    + intros res' o' b' _ Hb' _. rewrite lookup_insert_ne; [done|].
      intros <-. by rewrite fresh_unused in Hb'.
Qed.

Lemma references_taken pp p res cs : ∀ h refs,
  referenced h pp p refs → Pool_destroy res ∈ refs → Forall (passes h pp) cs →
  Z.of_nat (length cs + length refs) <= INT32_MAX →
  ∃ h' handles, run (create res <$> cs) h = Ok (tt, h', []) ∧
                length handles = length cs ∧
                referenced h' pp p ((Buffer_destroy <$> handles) ++ refs) ∧
                mappings h' = mappings h.
Proof.
  induction cs as [|c cs IH]; intros h refs Href Hin Hpass Hroom.
  - by exists h, [].
  - apply Forall_cons in Hpass as [Hc Hcs].
    destruct (reference_taken h pp p refs res c Href Hin Hc) as (h1 & r & Hstep & Href1 & Hmap1).
    { simpl in Hroom. lia. }
    destruct (IH h1 (Buffer_destroy r :: refs) Href1) as (h' & handles & Hrun & Hlen & Href' & Hmap').
    { by apply elem_of_cons; right. }
    { eapply Forall_impl; [done|]. intros c'. apply passes_same_size.
      destruct Href as [-> _], Href1 as [-> _]. done. }
    { simpl in *. lia. }
    exists h', (handles ++ [r]). rewrite fmap_cons, run_cons, Hstep, Hrun.
    split; [done|].
    split; [rewrite length_app; simpl; lia|].
    split; [|congruence].
    rewrite fmap_app, <- app_assoc. done.
Qed.

(** ** The paths through [shm_create_pool] *)

Lemma create_pool_no_memory mmap_answer create_ok res id fd size h :
  shm_create_pool false mmap_answer create_ok res id fd size h
  = Ok (tt, Heap (pools h) (buffers h) (resources h) (mappings h) (fds h ∖ {[fd]}),
        [EvNoMemory; EvClose fd]).
Proof. unfold shm_create_pool, malloc_pool. by exec. Qed.

Lemma create_pool_invalid_size mmap_answer create_ok res id fd size h :
  size <= 0 →
  shm_create_pool true mmap_answer create_ok res id fd size h
  = Ok (tt, h, [EvPostError res WL_SHM_ERROR_INVALID_STRIDE]).
Proof.
  intros Hsize. unfold shm_create_pool, malloc_pool. exec.
  apply Z.leb_le in Hsize. rewrite Hsize. exec.
  by rewrite delete_insert_id, heap_eta by apply fresh_unused.
Qed.

Lemma create_pool_mmap_failed create_ok res id fd size h :
  0 < size →
  shm_create_pool true MAP_FAILED create_ok res id fd size h
  = Ok (tt, h, [EvPostError res WL_SHM_ERROR_INVALID_FD]).
Proof.
  intros Hsize. unfold shm_create_pool, malloc_pool. exec.
  destruct (size <=? 0) eqn:?; [lia|]. exec.
  by rewrite !insert_insert_eq, delete_insert_id, heap_eta by apply fresh_unused.
Qed.

Lemma create_pool_unwound mmap_answer res id fd size h :
  0 < size → mmap_answer ≠ MAP_FAILED → mappings h !! mmap_answer = None →
  shm_create_pool true mmap_answer false res id fd size h
  = Ok (tt, Heap (pools h) (buffers h) (resources h) (mappings h) (fds h ∖ {[fd]}),
        [EvClose fd; EvNoMemory; EvMunmap mmap_answer size]).
Proof.
  intros Hsize Hok Hnew. apply Z.eqb_neq in Hok.
  unfold shm_create_pool, malloc_pool, wl_resource_create. exec.
  destruct (size <=? 0) eqn:?; [lia|]. exec. rewrite Hok. exec. rewrite Hok. exec.
  by rewrite !insert_insert_eq, !delete_insert_id by (done || apply fresh_unused).
Qed.

Lemma create_pool_created mmap_answer res id fd size h :
  0 < size → mmap_answer ≠ MAP_FAILED →
  shm_create_pool true mmap_answer true res id fd size h
  = Ok (tt,
        Heap (<[fresh (dom (pools h)) :=
                  Wl_shm_pool (Some (fresh (dom (resources h)))) 1 mmap_answer size]>
                (pools h))
          (buffers h)
          (<[fresh (dom (resources h)) :=
               Wl_resource wl_shm_pool_interface id (Some shm_pool_interface)
                 (Some (fresh (dom (pools h)))) (Some Destroy_pool)]> (resources h))
          (<[mmap_answer := size]> (mappings h))
          (fds h ∖ {[fd]}),
        [EvClose fd]).
Proof.
  intros Hsize Hok. apply Z.eqb_neq in Hok.
  unfold shm_create_pool, malloc_pool, wl_resource_create. exec.
  destruct (size <=? 0) eqn:?; [lia|]. exec. rewrite Hok. exec. rewrite Hok. exec.
  by rewrite !insert_insert_eq.
Qed.

(** ** The paths through [shm_pool_resize] *)

Lemma resize_failed res x pp p size h :
  resources h !! res = Some x → res_data x = Some pp → pools h !! pp = Some p →
  shm_pool_resize MAP_FAILED res size h
  = Ok (tt, h, [EvPostError res WL_SHM_ERROR_INVALID_FD]).
Proof.
  intros Hres Hdata Hp. unfold shm_pool_resize.
  exec with Hres. rewrite Hdata. by exec with Hp.
Qed.

Lemma resize_done answer res x pp p size h :
  resources h !! res = Some x → res_data x = Some pp → pools h !! pp = Some p →
  answer ≠ MAP_FAILED →
  shm_pool_resize answer res size h
  = Ok (tt,
        Heap (<[pp := set_size size (set_data answer p)]> (pools h)) (buffers h)
          (resources h) (<[answer := size]> (delete (data p) (mappings h))) (fds h),
        []).
Proof.
  intros Hres Hdata Hp Hok. apply Z.eqb_neq in Hok. unfold shm_pool_resize.
  exec with Hres. rewrite Hdata. repeat (exec with Hp; rewrite ?Hok).
  by rewrite !insert_insert_eq.
Qed.

(** ** The paths through [wl_shm_buffer_create] *)

Lemma wrap32_range x : INT32_MIN <= wrap32 x <= INT32_MAX.
Proof.
  unfold wrap32, INT32_MIN, INT32_MAX.
  pose proof (Z.mod_pos_bound (x + 2 ^ 31) (2 ^ 32)). lia.
Qed.

(** A product that is not negative asks for the header and as many
    bytes more. *)
Lemma buffer_request_payload stride height :
  0 <= wrap32 (stride * height) →
  buffer_request stride height - sizeof_wl_shm_buffer = wrap32 (stride * height).
Proof.
  intros Hpos. pose proof (wrap32_range (stride * height)) as [_ Hmax].
  unfold buffer_request, sizeof_wl_shm_buffer, INT32_MAX in *.
  rewrite Z.mod_small; lia.
Qed.

Lemma buffer_create_all_paths malloc_ok create_ok id width height stride format h :
  wl_shm_buffer_create malloc_ok create_ok id width height stride format h =
  if switch_format format && malloc_ok
  then if buffer_request stride height - sizeof_wl_shm_buffer <? 0
       then Fault InvalidPointer
       else if create_ok
            then Ok (Some (fresh (dom (buffers h))),
                     with_buffer (fresh (dom (buffers h))) (fresh (dom (resources h)))
                       id (Wl_shm_buffer None width height stride format 0 None)
                       (buffer_request stride height - sizeof_wl_shm_buffer) h,
                     [])
            else Ok (None, h, [])
  else Ok (None, h, []).
Proof.
  unfold wl_shm_buffer_create, malloc_buffer, wl_resource_create.
  destruct (switch_format format); simpl; [|done].
  destruct malloc_ok; simpl; [|done].
  destruct (buffer_request stride height - sizeof_wl_shm_buffer <? 0) eqn:Hsmall;
    [by exec; rewrite Hsmall|].
  destruct create_ok; repeat (exec; rewrite ?Hsmall).
  - by rewrite !insert_insert_eq.
  - by rewrite !insert_insert_eq, delete_insert_id, heap_eta by apply fresh_unused.
Qed.

Lemma buffer_create_paths malloc_ok create_ok id width height stride format h :
  0 <= wrap32 (stride * height) →
  wl_shm_buffer_create malloc_ok create_ok id width height stride format h =
  if switch_format format && malloc_ok && create_ok
  then Ok (Some (fresh (dom (buffers h))),
           with_buffer (fresh (dom (buffers h))) (fresh (dom (resources h))) id
             (Wl_shm_buffer None width height stride format 0 None)
             (wrap32 (stride * height)) h,
           [])
  else Ok (None, h, []).
Proof.
  intros Hpos. rewrite buffer_create_all_paths, buffer_request_payload by done.
  destruct (wrap32 (stride * height) <? 0) eqn:?; [lia|].
  by destruct (switch_format format), malloc_ok, create_ok.
Qed.

(** A product in [-40, 0) asks [malloc] for less than a header, and
    the assignments to the fields write past the block; a product below
    -40 asks for nearly 2^64 bytes. *)
Example standalone_buffer_smaller_than_header :
  buffer_request 40 (-1) = 0 ∧
  wl_shm_buffer_create true true 3 1 (-1) 40 WL_SHM_FORMAT_ARGB8888 bound_heap
  = Fault InvalidPointer ∧
  wl_shm_buffer_create true true 3 1 1 (-4) WL_SHM_FORMAT_ARGB8888 bound_heap
  = Fault InvalidPointer ∧
  wl_shm_buffer_create false true 3 1 1 (-4) WL_SHM_FORMAT_ARGB8888 bound_heap
  = Ok (None, bound_heap, []) ∧
  buffer_request 41 (-1) = 2 ^ 64 - 1.
Proof. repeat split; by vm_compute. Qed.

(** ** The accessors *)

Lemma buffer_get_data_pool b o pp p h :
  buffers h !! b = Some o → pool (header o) = Some pp → pools h !! pp = Some p →
  wl_shm_buffer_get_data (Some b) h = (Ok (Mapped (data p + offset (header o))), []).
Proof.
  intros Hb Hpool Hp. unfold wl_shm_buffer_get_data.
  exec with Hb. rewrite Hpool. by exec with Hp.
Qed.

Lemma buffer_get_live r x h :
  resources h !! r = Some x →
  wl_shm_buffer_get (Some r) h =
  (Ok (if bool_decide (res_interface x = wl_buffer_interface)
          && bool_decide (res_implementation x = Some shm_buffer_interface)
       then res_data x else None), []).
Proof.
  intros Hx. unfold wl_shm_buffer_get. exec with Hx.
  destruct (bool_decide _ && bool_decide _); by exec with Hx.
Qed.

(** * The claims *)

Example pool_heap_created :
  shm_create_pool true 4096 true 1%positive 2 5 4096 bound_heap
  = Ok (tt, pool_heap, [EvClose 5]).
Proof. by vm_compute. Qed.

(** C1: a request whose [stride * height] does not fit in a signed
    32-bit integer never passes the bounds check of
    [shm_pool_create_buffer]: the condition is true whatever the pool,
    and for a whitelisted format the request ends with the
    invalid-stride protocol error and an unchanged heap. *)
Theorem overflowing_footprint_is_rejected malloc_ok create_ok res x id
    offset width height stride format h :
  ¬ in_int32 (stride * height) →
  resources h !! res = Some x → switch_format format = true →
  (∀ pool, fst (invalid_geometry pool offset width height stride h) = Ok true) ∧
  shm_pool_create_buffer malloc_ok create_ok res id offset width height stride format h
  = Ok (tt, h, [EvPostError res WL_SHM_ERROR_INVALID_STRIDE]).
Proof.
  intros Hov Hres Hfmt. split.
  - intros pool. by apply overflow_rejected.
  - eapply create_buffer_invalid_geometry; [done..|]. by apply overflow_rejected.
Qed.

Lemma overflowing_footprint_is_rejected_witness :
  ¬ in_int32 (2 ^ 30 * 8) ∧
  (∀ pool, fst (invalid_geometry pool 0 32 8 (2 ^ 30) pool_heap) = Ok true) ∧
  shm_pool_create_buffer true true 2%positive 3 0 32 8 (2 ^ 30)
    WL_SHM_FORMAT_ARGB8888 pool_heap
  = Ok (tt, pool_heap, [EvPostError 2%positive WL_SHM_ERROR_INVALID_STRIDE]).
Proof.
  assert (¬ in_int32 (2 ^ 30 * 8)) as Hov by (vm_compute; intros [_ Hle]; by apply Hle).
  split; [exact Hov|].
  eapply (overflowing_footprint_is_rejected true true 2%positive _ 3 0 32 8 (2 ^ 30)
            WL_SHM_FORMAT_ARGB8888 pool_heap Hov); reflexivity.
Defined.

(** C10: the division [INT32_MAX / stride] of the bounds check never
    divides by zero: every division that the condition evaluates has the
    stride as divisor, and is reached only with [0 < width <= stride]. *)
Theorem division_by_stride_is_defined pool offset width height stride h :
  fst (invalid_geometry pool offset width height stride h) ≠ Fault DivByZero ∧
  Forall (λ d, d = stride ∧ 0 < width ∧ width <= stride ∧ 1 <= d)
    (snd (invalid_geometry pool offset width height stride h)).
Proof.
  rewrite invalid_geometry_unfold.
  destruct (offset <? 0) eqn:?; [by split|].
  destruct (width <=? 0) eqn:?; [by split|].
  destruct (height <=? 0) eqn:?; [by split|].
  destruct (stride <? width) eqn:?; [by split|].
  assert (stride = stride ∧ 0 < width ∧ width <= stride ∧ 1 <= stride) by lia.
  destruct (INT32_MAX / stride <=? height); [split; [done|by apply Forall_singleton]|].
  destruct (pool_at h pool); (split; [done|by apply Forall_singleton]).
Qed.

(** C3, as the code has it: the bounds check compares the stride with
    the width in pixels, not with the width in bytes.  On a pool whose
    size is a non-negative [int], what it accepts satisfies [fits]; what
    satisfies [fits] with the height below [INT32_MAX / stride] is
    accepted and, when allocation succeeds, created; what violates a
    clause of [fits] is rejected with the invalid-stride error and
    nothing is created; in particular a stride below the width is. *)
Theorem bounds_check_clauses malloc_ok create_ok res x pp p id
    offset width height stride format h :
  resources h !! res = Some x → res_data x = Some pp → pools h !! pp = Some p →
  0 <= size p <= INT32_MAX → switch_format format = true →
  (fst (invalid_geometry (Some pp) offset width height stride h) = Ok false →
   fits offset width height stride (size p)) ∧
  (fits offset width height stride (size p) → height < INT32_MAX / stride →
   fst (invalid_geometry (Some pp) offset width height stride h) = Ok false ∧
   shm_pool_create_buffer true true res id offset width height stride format h
   = Ok (tt,
         with_buffer (fresh (dom (buffers h))) (fresh (dom (resources h))) id
           (Wl_shm_buffer None width height stride format offset (Some pp)) 0
           (set_pools <[pp := set_refcount (wrap32 (refcount p + 1)) p]> h),
         [])) ∧
  (¬ fits offset width height stride (size p) →
   fst (invalid_geometry (Some pp) offset width height stride h) = Ok true ∧
   shm_pool_create_buffer malloc_ok create_ok res id offset width height stride format h
   = Ok (tt, h, [EvPostError res WL_SHM_ERROR_INVALID_STRIDE])) ∧
  (stride < width →
   shm_pool_create_buffer malloc_ok create_ok res id offset width height stride format h
   = Ok (tt, h, [EvPostError res WL_SHM_ERROR_INVALID_STRIDE])).
Proof.
  intros Hres Hdata Hp Hsize Hfmt.
  assert (pool_at h (Some pp) = Some p) as Hat by done.
  assert (∀ malloc_ok create_ok,
            ¬ fits offset width height stride (size p) →
            fst (invalid_geometry (Some pp) offset width height stride h) = Ok true ∧
            shm_pool_create_buffer malloc_ok create_ok res id offset width height
              stride format h
            = Ok (tt, h, [EvPostError res WL_SHM_ERROR_INVALID_STRIDE])) as Hreject.
  { intros mo co Hno.
    assert (fst (invalid_geometry (Some pp) offset width height stride h) = Ok true)
      as Hgeo by by eapply unfit_rejected.
    split; [done|].
    eapply create_buffer_invalid_geometry; [done..|]. by rewrite Hdata. }
  split; [|split; [|split]].
  - intros Hgeo. by eapply accepted_fits.
  - intros Hfits Hq.
    assert (fst (invalid_geometry (Some pp) offset width height stride h) = Ok false)
      as Hgeo by by eapply fits_accepted.
    split; [done|]. by eapply create_buffer_created.
  - apply Hreject.
  - intros Hs. apply Hreject. unfold fits. lia.
Qed.

Lemma bounds_check_clauses_witness :
  (fst (invalid_geometry (Some 1%positive) 0 32 32 128 pool_heap) = Ok false →
   fits 0 32 32 128 4096) ∧
  (fits 0 32 32 128 4096 → 32 < INT32_MAX / 128 →
   fst (invalid_geometry (Some 1%positive) 0 32 32 128 pool_heap) = Ok false ∧
   shm_pool_create_buffer true true 2%positive 3 0 32 32 128 WL_SHM_FORMAT_ARGB8888
     pool_heap
   = Ok (tt,
         with_buffer (fresh (dom (buffers pool_heap)))
           (fresh (dom (resources pool_heap))) 3
           (Wl_shm_buffer None 32 32 128 WL_SHM_FORMAT_ARGB8888 0 (Some 1%positive)) 0
           (set_pools
              <[1%positive :=
                  set_refcount (wrap32 (1 + 1))
                    (Wl_shm_pool (Some 2%positive) 1 4096 4096)]> pool_heap),
         [])) ∧
  (¬ fits 0 32 32 128 4096 →
   fst (invalid_geometry (Some 1%positive) 0 32 32 128 pool_heap) = Ok true ∧
   shm_pool_create_buffer true true 2%positive 3 0 32 32 128 WL_SHM_FORMAT_ARGB8888
     pool_heap
   = Ok (tt, pool_heap, [EvPostError 2%positive WL_SHM_ERROR_INVALID_STRIDE])) ∧
  (128 < 32 →
   shm_pool_create_buffer true true 2%positive 3 0 32 32 128 WL_SHM_FORMAT_ARGB8888
     pool_heap
   = Ok (tt, pool_heap, [EvPostError 2%positive WL_SHM_ERROR_INVALID_STRIDE])).
Proof.
  apply (bounds_check_clauses true true 2%positive
           (Wl_resource wl_shm_pool_interface 2 (Some shm_pool_interface)
              (Some 1%positive) (Some Destroy_pool))
           1%positive (Wl_shm_pool (Some 2%positive) 1 4096 4096)
           3 0 32 32 128 WL_SHM_FORMAT_ARGB8888 pool_heap);
    try reflexivity.
  vm_compute. split; intros Hc; discriminate Hc.
Defined.

(** Counterexample to C3 as stated: on the 4096-byte pool a 32x32 ARGB
    request whose stride is 32, the width in pixels and a quarter of the
    width in bytes, passes the check and the buffer is created. *)
Lemma stride_below_width_in_bytes_accepted :
  switch_format WL_SHM_FORMAT_ARGB8888 = true ∧ 32 < 4 * 32 ∧
  fst (invalid_geometry (Some 1%positive) 0 32 32 32 pool_heap) = Ok false ∧
  shm_pool_create_buffer true true 2%positive 3 0 32 32 32 WL_SHM_FORMAT_ARGB8888
    pool_heap
  = Ok (tt,
        with_buffer 1%positive 3%positive 3
          (Wl_shm_buffer None 32 32 32 WL_SHM_FORMAT_ARGB8888 0 (Some 1%positive)) 0
          (set_pools <[1%positive := Wl_shm_pool (Some 2%positive) 2 4096 4096]>
             pool_heap),
        []).
Proof. by vm_compute. Qed.




(** C4 fails on the code: when the size is not positive, and when
    [mmap] fails, [shm_create_pool] jumps to [err_free], below the
    [close] of [err_close]: it returns with the heap as it was, the
    descriptor still open, and no [close] in its trace. *)
Theorem shm_create_pool_keeps_descriptor_open mmap_answer create_ok res id fd h :
  shm_create_pool true mmap_answer create_ok res id fd 0 h
  = Ok (tt, h, [EvPostError res WL_SHM_ERROR_INVALID_STRIDE]) ∧
  shm_create_pool true MAP_FAILED create_ok res id fd 4096 h
  = Ok (tt, h, [EvPostError res WL_SHM_ERROR_INVALID_FD]) ∧
  closes [EvPostError res WL_SHM_ERROR_INVALID_STRIDE] = [] ∧
  closes [EvPostError res WL_SHM_ERROR_INVALID_FD] = [].
Proof.
  split; [by apply create_pool_invalid_size|].
  split; [by apply create_pool_mmap_failed|done].
Qed.

(** C5: when [mremap] fails, [shm_pool_resize] leaves the whole heap,
    and with it the base address and the size of the pool, as it was; it
    posts the invalid-fd error, which is neither of the two errors of
    buffer creation; and whatever requests follow run as they would have
    without the resize. *)
Theorem failed_resize_changes_nothing res x pp p size rest h :
  resources h !! res = Some x → res_data x = Some pp → pools h !! pp = Some p →
  shm_pool_resize MAP_FAILED res size h
  = Ok (tt, h, [EvPostError res WL_SHM_ERROR_INVALID_FD]) ∧
  WL_SHM_ERROR_INVALID_FD ≠ WL_SHM_ERROR_INVALID_STRIDE ∧
  WL_SHM_ERROR_INVALID_FD ≠ WL_SHM_ERROR_INVALID_FORMAT ∧
  run (Pool_resize MAP_FAILED res size :: rest) h
  = after [EvPostError res WL_SHM_ERROR_INVALID_FD] (run rest h).
Proof.
  intros Hres Hdata Hp.
  pose proof (resize_failed res x pp p size h Hres Hdata Hp) as Hfail.
  split; [done|]. split; [done|]. split; [done|].
  rewrite run_cons. simpl. by rewrite Hfail.
Qed.

Lemma failed_resize_changes_nothing_witness :
  shm_pool_resize MAP_FAILED 2%positive 8192 pool_heap
  = Ok (tt, pool_heap, [EvPostError 2%positive WL_SHM_ERROR_INVALID_FD]) ∧
  WL_SHM_ERROR_INVALID_FD ≠ WL_SHM_ERROR_INVALID_STRIDE ∧
  WL_SHM_ERROR_INVALID_FD ≠ WL_SHM_ERROR_INVALID_FORMAT ∧
  run [Pool_resize MAP_FAILED 2%positive 8192;
       Pool_create_buffer true true 2%positive 3 0 32 32 128 WL_SHM_FORMAT_ARGB8888]
    pool_heap
  = after [EvPostError 2%positive WL_SHM_ERROR_INVALID_FD]
      (run [Pool_create_buffer true true 2%positive 3 0 32 32 128
              WL_SHM_FORMAT_ARGB8888] pool_heap).
Proof.
  apply (failed_resize_changes_nothing 2%positive
           (Wl_resource wl_shm_pool_interface 2 (Some shm_pool_interface)
              (Some 1%positive) (Some Destroy_pool))
           1%positive (Wl_shm_pool (Some 2%positive) 1 4096 4096));
    reflexivity.
Defined.

(** C6: a buffer created at offset O in a pool of size S, whose region
    is mapped, lies inside that region, and its data address is the base
    of the pool + O.  After the pool has been resized to S' >= S, the
    region of the pool is the one that [mremap] has put at the new base
    in place of the old one, with S' bytes; the buffer is untouched and
    [wl_shm_buffer_get_data], which reads the base through the pool
    pointer at every call, yields the new base + O: the same offset, and
    so the same bytes, of the region of the pool, inside which the
    footprint of the buffer still lies. *)
Theorem buffer_data_follows_pool_base res x pp p c new_base new_size h :
  resources h !! res = Some x → res_data x = Some pp → pools h !! pp = Some p →
  mappings h !! data p = Some (size p) →
  0 <= size p <= INT32_MAX → passes h pp c →
  new_base ≠ MAP_FAILED → size p <= new_size →
  ∃ h1 h2 b o,
    dispatch (create res c) h = Ok (tt, h1, []) ∧
    buffers h !! b = None ∧ buffers h1 !! b = Some o ∧
    offset (header o) = c_offset c ∧ pool (header o) = Some pp ∧
    mappings h1 !! data p = Some (size p) ∧
    fst (wl_shm_buffer_get_data (Some b) h1) = Ok (Mapped (data p + c_offset c)) ∧
    0 <= c_offset c ∧ 0 < c_stride c * c_height c ∧
    c_offset c + c_stride c * c_height c <= size p ∧
    shm_pool_resize new_base res new_size h1 = Ok (tt, h2, []) ∧
    mappings h2 = <[new_base := new_size]> (delete (data p) (mappings h1)) ∧
    mappings h2 !! new_base = Some new_size ∧
    data <$> pools h2 !! pp = Some new_base ∧
    size <$> pools h2 !! pp = Some new_size ∧
    buffers h2 !! b = Some o ∧
    fst (wl_shm_buffer_get_data (Some b) h2) = Ok (Mapped (new_base + c_offset c)) ∧
    c_offset c + c_stride c * c_height c <= new_size.
Proof.
  intros Hres Hdata Hp Hmapped Hsize [Hfmt Hgeo] Hbase Hgrow.
  pose proof (create_buffer_created res x pp p (c_id c) _ _ _ _ _ h
                Hres Hdata Hp Hfmt Hgeo) as Hcreate.
  set (b := fresh (dom (buffers h))) in *.
  set (r := fresh (dom (resources h))) in *.
  set (p1 := set_refcount (wrap32 (refcount p + 1)) p) in *.
  set (h1 := with_buffer b r (c_id c) _ 0 _) in Hcreate.
  assert (resources h1 !! res = Some x) as Hres1.
  { simpl. rewrite lookup_insert_ne; [done|].
    intros Heq. subst r. rewrite <- Heq in Hres. by rewrite fresh_unused in Hres. }
  assert (pools h1 !! pp = Some p1) as Hp1 by (simpl; by rewrite lookup_insert_eq).
  pose proof (resize_done new_base res x pp p1 new_size h1 Hres1 Hdata Hp1 Hbase)
    as Hresize.
  set (h2 := Heap _ _ _ _ _) in Hresize.
  assert (buffers h1 !! b =
          Some (Buffer_object
                  (Wl_shm_buffer (Some r) (c_width c) (c_height c) (c_stride c)
                     (c_format c) (c_offset c) (Some pp)) 0)) as Hb1
    by (simpl; by rewrite lookup_insert_eq).
  assert (pools h2 !! pp = Some (set_size new_size (set_data new_base p1))) as Hp2
    by (simpl; by rewrite lookup_insert_eq).
  destruct (accepted_fits (Some pp) p _ _ _ _ h Hp Hsize Hgeo) as [Hfits Hq].
  assert (0 < c_stride c * c_height c).
  { unfold fits in Hfits. apply product_below_quotient; [lia..|done]. }
  unfold fits in Hfits.
  eexists h1, h2, b, _.
  split; [exact Hcreate|]. split; [apply fresh_unused|].
  split; [exact Hb1|]. split; [done|]. split; [done|].
  split; [exact Hmapped|].
  split; [by rewrite (buffer_get_data_pool b _ pp p1 h1 Hb1)|].
  split; [lia|]. split; [done|]. split; [lia|].
  split; [exact Hresize|].
  split; [done|]. split; [simpl; by rewrite lookup_insert_eq|].
  split; [by rewrite Hp2|]. split; [by rewrite Hp2|].
  split; [exact Hb1|].
  split; [by rewrite (buffer_get_data_pool b _ pp _ h2 Hb1 eq_refl Hp2)|].
  lia.
Qed.

Lemma buffer_data_follows_pool_base_witness :
  ∃ h1 h2 b o,
    dispatch (create 2%positive (Creation 3 1024 16 16 64 WL_SHM_FORMAT_XRGB8888))
      pool_heap = Ok (tt, h1, []) ∧
    buffers pool_heap !! b = None ∧ buffers h1 !! b = Some o ∧
    offset (header o) = 1024 ∧ pool (header o) = Some 1%positive ∧
    mappings h1 !! 4096 = Some 4096 ∧
    fst (wl_shm_buffer_get_data (Some b) h1) = Ok (Mapped (4096 + 1024)) ∧
    0 <= 1024 ∧ 0 < 64 * 16 ∧ 1024 + 64 * 16 <= 4096 ∧
    shm_pool_resize 65536 2%positive 8192 h1 = Ok (tt, h2, []) ∧
    mappings h2 = <[65536 := 8192]> (delete 4096 (mappings h1)) ∧
    mappings h2 !! 65536 = Some 8192 ∧
    data <$> pools h2 !! 1%positive = Some 65536 ∧
    size <$> pools h2 !! 1%positive = Some 8192 ∧
    buffers h2 !! b = Some o ∧
    fst (wl_shm_buffer_get_data (Some b) h2) = Ok (Mapped (65536 + 1024)) ∧
    1024 + 64 * 16 <= 8192.
Proof.
  apply (buffer_data_follows_pool_base 2%positive
           (Wl_resource wl_shm_pool_interface 2 (Some shm_pool_interface)
              (Some 1%positive) (Some Destroy_pool))
           1%positive (Wl_shm_pool (Some 2%positive) 1 4096 4096)
           (Creation 3 1024 16 16 64 WL_SHM_FORMAT_XRGB8888) 65536 8192 pool_heap);
    try reflexivity.
  - vm_compute. split; intros Hc; discriminate Hc.
  - split; reflexivity.
  - intros Hc; discriminate Hc.
  - vm_compute. intros Hc; discriminate Hc.
Defined.

(** C8: when [wl_resource_create] fails, both constructors give back
    what they had taken.  [shm_pool_create_buffer] ends with the heap it
    started from: the count of the pool is what it was, the buffer
    object is freed and no handle is registered.  [shm_create_pool] ends
    with the region unmapped and the pool object freed: the heap it
    started from, less the descriptor, which it has closed. *)
Theorem failed_handle_creation_is_unwound :
  (∀ res x pp p c h,
     resources h !! res = Some x → res_data x = Some pp → pools h !! pp = Some p →
     1 <= refcount p <= INT32_MAX → passes h pp c →
     shm_pool_create_buffer true false res (c_id c) (c_offset c) (c_width c)
       (c_height c) (c_stride c) (c_format c) h
     = Ok (tt, h, [EvNoMemory])) ∧
  (∀ mmap_answer shm id fd size h,
     0 < size → mmap_answer ≠ MAP_FAILED → mappings h !! mmap_answer = None →
     shm_create_pool true mmap_answer false shm id fd size h
     = Ok (tt, Heap (pools h) (buffers h) (resources h) (mappings h) (fds h ∖ {[fd]}),
           [EvClose fd; EvNoMemory; EvMunmap mmap_answer size])).
Proof.
  split.
  - intros res x pp p c h Hres Hdata Hp Hcount [Hfmt Hgeo].
    by eapply create_buffer_unwound.
  - intros mmap_answer shm id fd size h Hsize Hmap Hnew.
    by apply create_pool_unwound.
Qed.

Lemma failed_handle_creation_is_unwound_witness :
  shm_pool_create_buffer true false 2%positive 3 0 32 32 128 WL_SHM_FORMAT_ARGB8888
    pool_heap
  = Ok (tt, pool_heap, [EvNoMemory]) ∧
  shm_create_pool true 4096 false 1%positive 2 5 4096 bound_heap
  = Ok (tt,
        Heap (pools bound_heap) (buffers bound_heap) (resources bound_heap)
          (mappings bound_heap) (fds bound_heap ∖ {[5]}),
        [EvClose 5; EvNoMemory; EvMunmap 4096 4096]).
Proof.
  split.
  - apply (proj1 failed_handle_creation_is_unwound 2%positive
             (Wl_resource wl_shm_pool_interface 2 (Some shm_pool_interface)
                (Some 1%positive) (Some Destroy_pool))
             1%positive (Wl_shm_pool (Some 2%positive) 1 4096 4096)
             (Creation 3 0 32 32 128 WL_SHM_FORMAT_ARGB8888) pool_heap);
      try reflexivity.
    + vm_compute. split; intros Hc; discriminate Hc.
    + split; reflexivity.
  - apply (proj2 failed_handle_creation_is_unwound 4096 1%positive 2 5 4096
             bound_heap);
      try reflexivity.
    intros Hc; discriminate Hc.
Defined.

(** C9: [wl_shm_buffer_get] is defined on [NULL] and on every live
    handle: it returns [NULL] for [NULL], [NULL] for a handle on which
    the instance check fails, and the user data of the handle when the
    instance check succeeds. *)
Theorem wl_shm_buffer_get_total resource h :
  (∀ r, resource = Some r → is_Some (resources h !! r)) →
  ∃ v, fst (wl_shm_buffer_get resource h) = Ok v ∧
       match resource with
       | None => v = None
       | Some r =>
           ∃ x instance,
             resources h !! r = Some x ∧
             fst (wl_resource_instance_of resource wl_buffer_interface
                    shm_buffer_interface h) = Ok instance ∧
             v = if instance : bool then res_data x else None
       end.
Proof.
  intros Hlive. destruct resource as [r|].
  - destruct (Hlive r eq_refl) as [x Hx].
    rewrite (buffer_get_live r x h Hx). eexists. split; [done|].
    exists x. eexists. split; [done|]. split; [|done].
    unfold wl_resource_instance_of. by exec with Hx.
  - by exists None.
Qed.

Lemma wl_shm_buffer_get_total_witness :
  ∃ v, fst (wl_shm_buffer_get (Some 3%positive) buffer_heap) = Ok v ∧
       ∃ x instance,
         resources buffer_heap !! 3%positive = Some x ∧
         fst (wl_resource_instance_of (Some 3%positive) wl_buffer_interface
                shm_buffer_interface buffer_heap) = Ok instance ∧
         v = if instance : bool then res_data x else None.
Proof.
  apply (wl_shm_buffer_get_total (Some 3%positive) buffer_heap).
  intros r [= <-]. eexists. reflexivity.
Defined.

Example buffer_heap_created :
  shm_pool_create_buffer true true 2%positive 3 0 32 32 128 WL_SHM_FORMAT_ARGB8888
    pool_heap = Ok (tt, buffer_heap, []).
Proof. by vm_compute. Qed.

Example wl_shm_buffer_get_examples :
  fst (wl_shm_buffer_get (Some 3%positive) buffer_heap) = Ok (Some 1%positive) ∧
  fst (wl_shm_buffer_get (Some 2%positive) buffer_heap) = Ok None ∧
  fst (wl_shm_buffer_get None buffer_heap) = Ok None.
Proof. by vm_compute. Qed.

(** C2: on a pool whose count is 1 for its handle, after N successful
    buffer creations, let the handle of the pool and the handles of the
    N buffers be destroyed in any order.  Every request but the last
    leaves the pool object live, counting the references still out, and
    the table of mappings untouched, and calls nothing; the last one
    calls [munmap] once, on the region of the pool, and frees the pool
    object. *)
Theorem pool_unmapped_by_last_release res x pp p cs h :
  resources h !! res = Some x → res_destroy x = Some Destroy_pool →
  res_data x = Some pp → pools h !! pp = Some p → refcount p = 1 →
  Forall (passes h pp) cs → Z.of_nat (length cs) < INT32_MAX →
  ∃ h1 handles,
    run (create res <$> cs) h = Ok (tt, h1, []) ∧
    length handles = length cs ∧
    referenced h1 pp p (Pool_destroy res :: (Buffer_destroy <$> handles)) ∧
    mappings h1 = mappings h ∧
    ∀ destroys, destroys ≡ₚ Pool_destroy res :: (Buffer_destroy <$> handles) →
      (∀ pre post, destroys = pre ++ post → post ≠ [] →
         ∃ h', run pre h1 = Ok (tt, h', []) ∧
               pools h' !! pp = Some (set_refcount (Z.of_nat (length post)) p) ∧
               mappings h' = mappings h) ∧
      ∃ h2, run destroys h1 = Ok (tt, h2, [EvMunmap (data p) (size p)]) ∧
            pools h2 !! pp = None ∧
            mappings h2 = delete (data p) (mappings h).
Proof.
  intros Hres Hkind Hdata Hp Hone Hpass Hroom.
  assert (referenced h pp p [Pool_destroy res]) as Href.
  { split; [|split; [|split]].
    - rewrite Hp. f_equal. destruct p; simpl in *. by subst.
    - by vm_compute.
    - apply NoDup_singleton.
    - apply Forall_singleton. simpl. eauto. }
  destruct (references_taken pp p res cs h [Pool_destroy res] Href)
    as (h1 & handles & Hrun & Hlen & Href1 & Hmap1).
  { by apply list_elem_of_singleton. }
  { done. }
  { rewrite Nat2Z.inj_add. simpl. unfold INT32_MAX in *. lia. }
  assert (referenced h1 pp p (Pool_destroy res :: (Buffer_destroy <$> handles)))
    as Href1'.
  { eapply referenced_perm; [|done]. by rewrite Permutation_app_comm. }
  exists h1, handles.
  split; [done|]. split; [done|]. split; [done|]. split; [done|].
  intros destroys Hperm.
  assert (referenced h1 pp p destroys) as Hall
    by (eapply referenced_perm; [symmetry|]; done).
  split.
  - intros pre post -> Hpost.
    destruct (release_prefix pp p pre post h1 Hall Hpost) as (h' & Hpre & Href' & Hmap').
    exists h'. split; [done|]. split; [by destruct Href'|congruence].
  - destruct (release_all pp p destroys h1 Hall) as (h2 & Hdone & Hgone & Hmap2).
    { intros ->. by apply Permutation_nil_cons in Hperm. }
    exists h2. split; [done|]. split; [done|congruence].
Qed.

Lemma pool_unmapped_by_last_release_witness :
  ∃ h1 handles,
    run (create 2%positive <$> [Creation 3 0 32 32 128 WL_SHM_FORMAT_ARGB8888;
                                Creation 4 1024 16 16 64 WL_SHM_FORMAT_XRGB8888])
      pool_heap = Ok (tt, h1, []) ∧
    length handles = 2%nat ∧
    referenced h1 1%positive (Wl_shm_pool (Some 2%positive) 1 4096 4096)
      (Pool_destroy 2%positive :: (Buffer_destroy <$> handles)) ∧
    mappings h1 = mappings pool_heap ∧
    ∀ destroys,
      destroys ≡ₚ Pool_destroy 2%positive :: (Buffer_destroy <$> handles) →
      (∀ pre post, destroys = pre ++ post → post ≠ [] →
         ∃ h', run pre h1 = Ok (tt, h', []) ∧
               pools h' !! 1%positive
               = Some (set_refcount (Z.of_nat (length post))
                         (Wl_shm_pool (Some 2%positive) 1 4096 4096)) ∧
               mappings h' = mappings pool_heap) ∧
      ∃ h2, run destroys h1 = Ok (tt, h2, [EvMunmap 4096 4096]) ∧
            pools h2 !! 1%positive = None ∧
            mappings h2 = delete 4096 (mappings pool_heap).
Proof.
  apply (pool_unmapped_by_last_release 2%positive
           (Wl_resource wl_shm_pool_interface 2 (Some shm_pool_interface)
              (Some 1%positive) (Some Destroy_pool))
           1%positive (Wl_shm_pool (Some 2%positive) 1 4096 4096)
           [Creation 3 0 32 32 128 WL_SHM_FORMAT_ARGB8888;
            Creation 4 1024 16 16 64 WL_SHM_FORMAT_XRGB8888] pool_heap);
    try reflexivity.
  repeat constructor.
Defined.

(** The spec's scenario (e) with two buffers, run: the handle of the
    pool goes first, the buffers follow, and the only [munmap] is the
    last event. *)
Example release_order_example :
  run [Pool_create_buffer true true 2%positive 3 0 32 32 128 WL_SHM_FORMAT_ARGB8888;
       Pool_create_buffer true true 2%positive 4 1024 16 16 64 WL_SHM_FORMAT_XRGB8888;
       Buffer_destroy 4%positive; Pool_destroy 2%positive; Buffer_destroy 3%positive]
    pool_heap
  = Ok (tt,
        Heap ∅ ∅
          {[ 1%positive := Wl_resource wl_shm_interface 1 (Some shm_interface) None None ]}
          ∅ ∅,
        [EvMunmap 4096 4096]).
Proof. by vm_compute. Qed.

(** The scenarios of the spec, run on the example pool: (a) a footprint
    of exactly the pool size is accepted, (b) one row more is rejected,
    (c) format 7 is rejected whatever the geometry, (d) after a resize to
    8192 a second buffer fits at offset 4096. *)
Example spec_scenarios :
  shm_pool_create_buffer true true 2%positive 3 0 32 32 128 WL_SHM_FORMAT_ARGB8888
    pool_heap = Ok (tt, buffer_heap, []) ∧
  shm_pool_create_buffer true true 2%positive 3 0 32 33 128 WL_SHM_FORMAT_ARGB8888
    pool_heap = Ok (tt, pool_heap, [EvPostError 2%positive WL_SHM_ERROR_INVALID_STRIDE]) ∧
  shm_pool_create_buffer true true 2%positive 3 0 0 0 0 7
    pool_heap = Ok (tt, pool_heap, [EvPostError 2%positive WL_SHM_ERROR_INVALID_FORMAT]) ∧
  shm_pool_create_buffer true true 2%positive 4 4096 32 32 128 WL_SHM_FORMAT_ARGB8888
    buffer_heap = Ok (tt, buffer_heap, [EvPostError 2%positive WL_SHM_ERROR_INVALID_STRIDE]) ∧
  ∃ h, run [Pool_resize 65536 2%positive 8192;
            Pool_create_buffer true true 2%positive 4 4096 32 32 128
              WL_SHM_FORMAT_ARGB8888] buffer_heap = Ok (tt, h, []) ∧
       fst (wl_shm_buffer_get_data (Some 1%positive) h) = Ok (Mapped 65536) ∧
       fst (wl_shm_buffer_get_data (Some 2%positive) h) = Ok (Mapped (65536 + 4096)).
Proof.
  repeat split; try by vm_compute.
  eexists. split; [by vm_compute|]. by vm_compute.
Qed.

(** On the paths of [shm_create_pool] that do not go to [err_free]
    directly, the descriptor is closed once. *)
Example descriptor_closed_on_other_paths :
  fds bound_heap = {[ 5 ]} ∧
  shm_create_pool false 4096 true 1%positive 2 5 4096 bound_heap
  = Ok (tt, set_fds (λ _, ∅) bound_heap, [EvNoMemory; EvClose 5]) ∧
  shm_create_pool true 4096 false 1%positive 2 5 4096 bound_heap
  = Ok (tt, set_fds (λ _, ∅) bound_heap, [EvClose 5; EvNoMemory; EvMunmap 4096 4096]) ∧
  shm_create_pool true 4096 true 1%positive 2 5 4096 bound_heap
  = Ok (tt, pool_heap, [EvClose 5]) ∧
  shm_create_pool true 4096 true 1%positive 2 5 0 bound_heap
  = Ok (tt, bound_heap, [EvPostError 1%positive WL_SHM_ERROR_INVALID_STRIDE]) ∧
  shm_create_pool true MAP_FAILED true 1%positive 2 5 4096 bound_heap
  = Ok (tt, bound_heap, [EvPostError 1%positive WL_SHM_ERROR_INVALID_FD]).
Proof. repeat split; by vm_compute. Qed.

(** * Further properties *)

Lemma switch_format_whitelist format :
  switch_format format = true ↔
  format = WL_SHM_FORMAT_ARGB8888 ∨ format = WL_SHM_FORMAT_XRGB8888.
Proof. unfold switch_format. rewrite orb_true_iff, !Z.eqb_eq. done. Qed.

(** X1: [shm_pool_create_buffer] checks the format before anything else:
    a format outside the whitelist ends the request with the
    invalid-format error and an unchanged heap, whatever the geometry
    and whatever the handle's user data points to. *)
Theorem invalid_format_reported_first malloc_ok create_ok res x id
    offset width height stride format h :
  resources h !! res = Some x →
  format ≠ WL_SHM_FORMAT_ARGB8888 → format ≠ WL_SHM_FORMAT_XRGB8888 →
  shm_pool_create_buffer malloc_ok create_ok res id offset width height stride format h
  = Ok (tt, h, [EvPostError res WL_SHM_ERROR_INVALID_FORMAT]).
Proof.
  intros Hres Ha Hx. eapply create_buffer_invalid_format; [done|].
  destruct (switch_format format) eqn:Hsw; [|done].
  apply switch_format_whitelist in Hsw. tauto.
Qed.

Lemma invalid_format_reported_first_witness :
  shm_pool_create_buffer true true 1%positive 3 (-1) 0 0 0 7 bound_heap
  = Ok (tt, bound_heap, [EvPostError 1%positive WL_SHM_ERROR_INVALID_FORMAT]).
Proof.
  eapply (invalid_format_reported_first true true 1%positive _ 3 (-1) 0 0 0 7 bound_heap);
    [reflexivity|intros Hc; discriminate Hc..].
Defined.

(** X2: when [malloc] fails in [shm_pool_create_buffer], on a request
    that passes both checks, the no-memory notification is sent and the
    heap is as before: no reference to the pool is taken. *)
Theorem create_buffer_allocation_failure create_ok res x pp p c h :
  resources h !! res = Some x → res_data x = Some pp → pools h !! pp = Some p →
  passes h pp c →
  shm_pool_create_buffer false create_ok res (c_id c) (c_offset c) (c_width c)
    (c_height c) (c_stride c) (c_format c) h
  = Ok (tt, h, [EvNoMemory]).
Proof.
  intros Hres Hdata Hp [Hfmt Hgeo].
  eapply create_buffer_no_memory; [done..|]. by rewrite Hdata.
Qed.

Lemma create_buffer_allocation_failure_witness :
  shm_pool_create_buffer false true 2%positive 3 0 32 32 128 WL_SHM_FORMAT_ARGB8888
    pool_heap
  = Ok (tt, pool_heap, [EvNoMemory]).
Proof.
  apply (create_buffer_allocation_failure true 2%positive
           (Wl_resource wl_shm_pool_interface 2 (Some shm_pool_interface)
              (Some 1%positive) (Some Destroy_pool))
           1%positive (Wl_shm_pool (Some 2%positive) 1 4096 4096)
           (Creation 3 0 32 32 128 WL_SHM_FORMAT_ARGB8888) pool_heap);
    try reflexivity.
  split; reflexivity.
Defined.

Lemma buffer_field_read {A} (f : wl_shm_buffer → A) b o h :
  buffers h !! b = Some o →
  (let+ x := deref buffers (Some b) in eret (f (header x))) h = (Ok (f (header o)), []).
Proof. intros Hb. by exec with Hb. Qed.

(** X3: after a successful [shm_pool_create_buffer] the new handle is
    recognised by [wl_shm_buffer_get], which returns the new buffer, and
    the accessors give back the width, height, stride and format of the
    request and the address "base of the pool + offset". *)
Theorem pool_buffer_accessors res x pp p c h :
  resources h !! res = Some x → res_data x = Some pp → pools h !! pp = Some p →
  passes h pp c →
  ∃ h1 b r,
    dispatch (create res c) h = Ok (tt, h1, []) ∧
    buffers h !! b = None ∧ resources h !! r = None ∧
    fst (wl_shm_buffer_get (Some r) h1) = Ok (Some b) ∧
    fst (wl_shm_buffer_get_width (Some b) h1) = Ok (c_width c) ∧
    fst (wl_shm_buffer_get_height (Some b) h1) = Ok (c_height c) ∧
    fst (wl_shm_buffer_get_stride (Some b) h1) = Ok (c_stride c) ∧
    fst (wl_shm_buffer_get_format (Some b) h1) = Ok (c_format c) ∧
    fst (wl_shm_buffer_get_data (Some b) h1) = Ok (Mapped (data p + c_offset c)).
Proof.
  intros Hres Hdata Hp [Hfmt Hgeo].
  pose proof (create_buffer_created res x pp p (c_id c) _ _ _ _ _ h
                Hres Hdata Hp Hfmt Hgeo) as Hcreate.
  set (b := fresh (dom (buffers h))) in *.
  set (r := fresh (dom (resources h))) in *.
  set (h1 := with_buffer b r (c_id c) _ 0 _) in Hcreate.
  assert (buffers h1 !! b =
          Some (Buffer_object
                  (Wl_shm_buffer (Some r) (c_width c) (c_height c) (c_stride c)
                     (c_format c) (c_offset c) (Some pp)) 0)) as Hb1
    by (simpl; by rewrite lookup_insert_eq).
  assert (resources h1 !! r =
          Some (Wl_resource wl_buffer_interface (c_id c) (Some shm_buffer_interface)
                  (Some b) (Some Destroy_buffer))) as Hr1
    by (simpl; by rewrite lookup_insert_eq).
  assert (pools h1 !! pp = Some (set_refcount (wrap32 (refcount p + 1)) p)) as Hp1
    by (simpl; by rewrite lookup_insert_eq).
  exists h1, b, r.
  split; [exact Hcreate|]. split; [apply fresh_unused|]. split; [apply fresh_unused|].
  split; [by rewrite (buffer_get_live r _ h1 Hr1)|].
  unfold wl_shm_buffer_get_width, wl_shm_buffer_get_height, wl_shm_buffer_get_stride,
    wl_shm_buffer_get_format.
  rewrite !(buffer_field_read _ b _ h1 Hb1).
  by rewrite (buffer_get_data_pool b _ pp _ h1 Hb1 eq_refl Hp1).
Qed.

Lemma pool_buffer_accessors_witness :
  ∃ h1 b r,
    dispatch (create 2%positive (Creation 3 1024 16 16 64 WL_SHM_FORMAT_XRGB8888))
      pool_heap = Ok (tt, h1, []) ∧
    buffers pool_heap !! b = None ∧ resources pool_heap !! r = None ∧
    fst (wl_shm_buffer_get (Some r) h1) = Ok (Some b) ∧
    fst (wl_shm_buffer_get_width (Some b) h1) = Ok 16 ∧
    fst (wl_shm_buffer_get_height (Some b) h1) = Ok 16 ∧
    fst (wl_shm_buffer_get_stride (Some b) h1) = Ok 64 ∧
    fst (wl_shm_buffer_get_format (Some b) h1) = Ok WL_SHM_FORMAT_XRGB8888 ∧
    fst (wl_shm_buffer_get_data (Some b) h1) = Ok (Mapped (4096 + 1024)).
Proof.
  apply (pool_buffer_accessors 2%positive
           (Wl_resource wl_shm_pool_interface 2 (Some shm_pool_interface)
              (Some 1%positive) (Some Destroy_pool))
           1%positive (Wl_shm_pool (Some 2%positive) 1 4096 4096)
           (Creation 3 1024 16 16 64 WL_SHM_FORMAT_XRGB8888) pool_heap);
    try reflexivity.
  split; reflexivity.
Defined.

Lemma destroy_standalone_handle res x b o h :
  resources h !! res = Some x → res_destroy x = Some Destroy_buffer →
  res_data x = Some b → buffers h !! b = Some o → pool (header o) = None →
  wl_resource_destroy res h =
  Ok (tt, Heap (pools h) (delete b (buffers h)) (delete res (resources h))
            (mappings h) (fds h), []).
Proof.
  intros Hres Hkind Hdata Hb Hpool. unfold wl_resource_destroy, destroy_buffer.
  exec with Hres. rewrite Hkind. exec with Hres. rewrite Hdata. exec with Hb.
  rewrite Hpool. by exec with Hb.
Qed.

(** X4: a buffer made by [wl_shm_buffer_create], for a product
    [stride * height] that is not negative as an [int], is recognised by
    [wl_shm_buffer_get], its accessors give back the arguments, its data
    is the storage that follows the header, pools and mappings are not
    touched, and destroying its handle gives back the heap as it was
    before the creation, with no call to [munmap]. *)
Theorem standalone_buffer_round_trip id width height stride format h :
  switch_format format = true → 0 <= wrap32 (stride * height) →
  ∃ h1 b r,
    wl_shm_buffer_create true true id width height stride format h
    = Ok (Some b, h1, []) ∧
    buffers h !! b = None ∧ resources h !! r = None ∧
    pools h1 = pools h ∧ mappings h1 = mappings h ∧
    fst (wl_shm_buffer_get (Some r) h1) = Ok (Some b) ∧
    fst (wl_shm_buffer_get_width (Some b) h1) = Ok width ∧
    fst (wl_shm_buffer_get_height (Some b) h1) = Ok height ∧
    fst (wl_shm_buffer_get_stride (Some b) h1) = Ok stride ∧
    fst (wl_shm_buffer_get_format (Some b) h1) = Ok format ∧
    fst (wl_shm_buffer_get_data (Some b) h1) = Ok (Inline (Some b)) ∧
    shm_buffer_destroy r h1 = Ok (tt, h, []).
Proof.
  intros Hfmt Hpos.
  pose proof (buffer_create_paths true true id width height stride format h Hpos)
    as Hcreate.
  rewrite Hfmt in Hcreate. simpl in Hcreate.
  set (b := fresh (dom (buffers h))) in *.
  set (r := fresh (dom (resources h))) in *.
  set (h1 := with_buffer b r id _ _ h) in Hcreate.
  assert (buffers h1 !! b =
          Some (Buffer_object
                  (Wl_shm_buffer (Some r) width height stride format 0 None)
                  (wrap32 (stride * height)))) as Hb1
    by (simpl; by rewrite lookup_insert_eq).
  assert (resources h1 !! r =
          Some (Wl_resource wl_buffer_interface id (Some shm_buffer_interface)
                  (Some b) (Some Destroy_buffer))) as Hr1
    by (simpl; by rewrite lookup_insert_eq).
  exists h1, b, r.
  split; [exact Hcreate|]. split; [apply fresh_unused|]. split; [apply fresh_unused|].
  split; [done|]. split; [done|].
  split; [by rewrite (buffer_get_live r _ h1 Hr1)|].
  unfold wl_shm_buffer_get_width, wl_shm_buffer_get_height, wl_shm_buffer_get_stride,
    wl_shm_buffer_get_format.
  rewrite !(buffer_field_read _ b _ h1 Hb1).
  do 4 (split; [done|]). split.
  - unfold wl_shm_buffer_get_data. by exec with Hb1.
  - unfold shm_buffer_destroy.
    rewrite (destroy_standalone_handle r _ b _ h1 Hr1 eq_refl eq_refl Hb1 eq_refl).
    simpl. by rewrite !delete_insert_id, heap_eta by apply fresh_unused.
Qed.

Lemma standalone_buffer_round_trip_witness :
  ∃ h1 b r,
    wl_shm_buffer_create true true 3 32 32 128 WL_SHM_FORMAT_ARGB8888 bound_heap
    = Ok (Some b, h1, []) ∧
    buffers bound_heap !! b = None ∧ resources bound_heap !! r = None ∧
    pools h1 = pools bound_heap ∧ mappings h1 = mappings bound_heap ∧
    fst (wl_shm_buffer_get (Some r) h1) = Ok (Some b) ∧
    fst (wl_shm_buffer_get_width (Some b) h1) = Ok 32 ∧
    fst (wl_shm_buffer_get_height (Some b) h1) = Ok 32 ∧
    fst (wl_shm_buffer_get_stride (Some b) h1) = Ok 128 ∧
    fst (wl_shm_buffer_get_format (Some b) h1) = Ok WL_SHM_FORMAT_ARGB8888 ∧
    fst (wl_shm_buffer_get_data (Some b) h1) = Ok (Inline (Some b)) ∧
    shm_buffer_destroy r h1 = Ok (tt, bound_heap, []).
Proof.
  apply (standalone_buffer_round_trip 3 32 32 128 WL_SHM_FORMAT_ARGB8888 bound_heap).
  - reflexivity.
  - vm_compute. intros Hc; discriminate Hc.
Defined.

(** X5: creating a buffer in a pool and then destroying its handle
    leaves the heap as it was, the count of the pool included, and calls
    nothing. *)
Theorem pool_buffer_create_destroy_round_trip res x pp p c h :
  resources h !! res = Some x → res_data x = Some pp → pools h !! pp = Some p →
  1 <= refcount p <= INT32_MAX → passes h pp c →
  run [create res c; Buffer_destroy (fresh (dom (resources h)))] h = Ok (tt, h, []).
Proof.
  intros Hres Hdata Hp Hcount [Hfmt Hgeo].
  destruct (wrap32_succ_pred _ Hcount) as [Hback Hnz].
  rewrite run_cons. simpl dispatch at 1.
  rewrite (create_buffer_created res x pp p (c_id c) _ _ _ _ _ h
             Hres Hdata Hp Hfmt Hgeo).
  set (b := fresh (dom (buffers h))).
  set (r := fresh (dom (resources h))).
  set (p1 := set_refcount (wrap32 (refcount p + 1)) p).
  set (h1 := with_buffer b r (c_id c) _ 0 _).
  assert (buffers h1 !! b =
          Some (Buffer_object
                  (Wl_shm_buffer (Some r) (c_width c) (c_height c) (c_stride c)
                     (c_format c) (c_offset c) (Some pp)) 0)) as Hb1
    by (simpl; by rewrite lookup_insert_eq).
  assert (resources h1 !! r =
          Some (Wl_resource wl_buffer_interface (c_id c) (Some shm_buffer_interface)
                  (Some b) (Some Destroy_buffer))) as Hr1
    by (simpl; by rewrite lookup_insert_eq).
  assert (pools h1 !! pp = Some p1) as Hp1 by (simpl; by rewrite lookup_insert_eq).
  rewrite run_cons. simpl dispatch. unfold shm_buffer_destroy.
  rewrite (destroy_buffer_handle r _ b _ pp p1 h1 Hr1 eq_refl eq_refl Hb1 eq_refl Hp1).
  subst p1. simpl refcount. apply Z.eqb_neq in Hnz. rewrite Hnz. simpl.
  rewrite !delete_insert_id by apply fresh_unused.
  rewrite insert_insert_eq. apply Z.eqb_neq in Hnz. rewrite Hback.
  replace (set_refcount (refcount p) (set_refcount (wrap32 (refcount p + 1)) p))
    with p by by destruct p.
  by rewrite insert_id, heap_eta.
Qed.

Lemma pool_buffer_create_destroy_round_trip_witness :
  run [create 2%positive (Creation 3 0 32 32 128 WL_SHM_FORMAT_ARGB8888);
       Buffer_destroy (fresh (dom (resources pool_heap)))] pool_heap
  = Ok (tt, pool_heap, []).
Proof.
  apply (pool_buffer_create_destroy_round_trip 2%positive
           (Wl_resource wl_shm_pool_interface 2 (Some shm_pool_interface)
              (Some 1%positive) (Some Destroy_pool))
           1%positive (Wl_shm_pool (Some 2%positive) 1 4096 4096)
           (Creation 3 0 32 32 128 WL_SHM_FORMAT_ARGB8888) pool_heap);
    try reflexivity.
  - vm_compute. split; intros Hc; discriminate Hc.
  - split; reflexivity.
Defined.

(** X6: creating a pool and then destroying its handle unmaps the
    region that was mapped and frees the pool object: the heap is as
    before, less the descriptor, and the trace is the [close] followed
    by the one [munmap]. *)
Theorem pool_create_destroy_round_trip mmap_answer shm id fd size h :
  0 < size → mmap_answer ≠ MAP_FAILED → mappings h !! mmap_answer = None →
  run [Create_pool true mmap_answer true shm id fd size;
       Pool_destroy (fresh (dom (resources h)))] h
  = Ok (tt, Heap (pools h) (buffers h) (resources h) (mappings h) (fds h ∖ {[fd]}),
        [EvClose fd; EvMunmap mmap_answer size]).
Proof.
  intros Hsize Hok Hnew.
  rewrite run_cons. simpl dispatch at 1.
  rewrite (create_pool_created mmap_answer shm id fd size h Hsize Hok).
  set (pp := fresh (dom (pools h))).
  set (r := fresh (dom (resources h))).
  set (h1 := Heap _ _ _ _ _).
  rewrite run_cons. simpl dispatch. unfold shm_pool_destroy.
  rewrite (destroy_pool_handle r
             (Wl_resource wl_shm_pool_interface id (Some shm_pool_interface)
                (Some pp) (Some Destroy_pool))
             pp (Wl_shm_pool (Some r) 1 mmap_answer size) h1);
    [|subst h1; simpl; by rewrite lookup_insert_eq|done|done
     |subst h1; simpl; by rewrite lookup_insert_eq].
  simpl. by rewrite !delete_insert_id by (done || apply fresh_unused).
Qed.

Lemma pool_create_destroy_round_trip_witness :
  run [Create_pool true 4096 true 1%positive 2 5 4096;
       Pool_destroy (fresh (dom (resources bound_heap)))] bound_heap
  = Ok (tt,
        Heap (pools bound_heap) (buffers bound_heap) (resources bound_heap)
          (mappings bound_heap) (fds bound_heap ∖ {[5]}),
        [EvClose 5; EvMunmap 4096 4096]).
Proof.
  apply (pool_create_destroy_round_trip 4096 1%positive 2 5 4096 bound_heap);
    try reflexivity.
  intros Hc; discriminate Hc.
Defined.

(** X7: on a live pool whose size is a non-negative [int], the bounds
    check lets through exactly the requests with a non-negative offset,
    [0 < width <= stride], [0 < height < INT32_MAX / stride] and
    [offset + stride * height <= size]. *)
Theorem bounds_check_exact pool p offset width height stride h :
  pool_at h pool = Some p → 0 <= size p <= INT32_MAX →
  fst (invalid_geometry pool offset width height stride h) = Ok false ↔
  0 <= offset ∧ 0 < width ∧ width <= stride ∧
  0 < height ∧ height < INT32_MAX / stride ∧
  offset + stride * height <= size p.
Proof.
  intros Hp Hsize. split.
  - intros Hgeo.
    destruct (accepted_fits pool p _ _ _ _ h Hp Hsize Hgeo) as [Hfits Hq].
    unfold fits in Hfits. lia.
  - intros (Ho & Hw & Hs & Hh & Hq & Hend).
    eapply fits_accepted; [done..| |done].
    pose proof (product_below_quotient stride height). unfold fits. lia.
Qed.

Lemma bounds_check_exact_witness :
  fst (invalid_geometry (Some 1%positive) 0 32 32 128 pool_heap) = Ok false ↔
  0 <= 0 ∧ 0 < 32 ∧ 32 <= 128 ∧ 0 < 32 ∧ 32 < INT32_MAX / 128 ∧
  0 + 128 * 32 <= 4096.
Proof.
  apply (bounds_check_exact (Some 1%positive)
           (Wl_shm_pool (Some 2%positive) 1 4096 4096) 0 32 32 128 pool_heap);
    [reflexivity|].
  vm_compute. split; intros Hc; discriminate Hc.
Defined.

(** X9: a resize that [mremap] grants is never refused, whatever the
    new size and whatever buffers are out: it posts nothing, replaces
    the base and the size of that pool only, keeps its count, leaves
    buffers, handles and descriptors as they were, and the data address
    of a buffer of the pool becomes the new base + its offset. *)
Theorem resize_does_not_revalidate_buffers answer res x pp p b o new_size h :
  resources h !! res = Some x → res_data x = Some pp → pools h !! pp = Some p →
  buffers h !! b = Some o → pool (header o) = Some pp →
  answer ≠ MAP_FAILED →
  ∃ h',
    shm_pool_resize answer res new_size h = Ok (tt, h', []) ∧
    buffers h' = buffers h ∧ resources h' = resources h ∧ fds h' = fds h ∧
    pools h' !! pp
    = Some (Wl_shm_pool (pool_resource p) (refcount p) answer new_size) ∧
    (∀ pp', pp' ≠ pp → pools h' !! pp' = pools h !! pp') ∧
    fst (wl_shm_buffer_get_data (Some b) h')
    = Ok (Mapped (answer + offset (header o))).
Proof.
  intros Hres Hdata Hp Hb Hpool Hok.
  rewrite (resize_done answer res x pp p new_size h Hres Hdata Hp Hok).
  eexists. split; [done|]. simpl.
  split; [done|]. split; [done|]. split; [done|].
  split; [by rewrite lookup_insert_eq|].
  split; [intros pp' Hne; by rewrite lookup_insert_ne|].
  rewrite (buffer_get_data_pool b o pp (set_size new_size (set_data answer p)));
    [done|done|done|simpl; by rewrite lookup_insert_eq].
Qed.

Lemma resize_does_not_revalidate_buffers_witness :
  ∃ h',
    shm_pool_resize 65536 2%positive 1024 buffer_heap = Ok (tt, h', []) ∧
    buffers h' = buffers buffer_heap ∧ resources h' = resources buffer_heap ∧
    fds h' = fds buffer_heap ∧
    pools h' !! 1%positive = Some (Wl_shm_pool (Some 2%positive) 2 65536 1024) ∧
    (∀ pp', pp' ≠ 1%positive → pools h' !! pp' = pools buffer_heap !! pp') ∧
    fst (wl_shm_buffer_get_data (Some 1%positive) h') = Ok (Mapped (65536 + 0)).
Proof.
  apply (resize_does_not_revalidate_buffers 65536 2%positive
           (Wl_resource wl_shm_pool_interface 2 (Some shm_pool_interface)
              (Some 1%positive) (Some Destroy_pool))
           1%positive (Wl_shm_pool (Some 2%positive) 2 4096 4096) 1%positive
           (Buffer_object
              (Wl_shm_buffer (Some 3%positive) 32 32 128 WL_SHM_FORMAT_ARGB8888 0
                 (Some 1%positive)) 0)
           1024 buffer_heap);
    try reflexivity.
  intros Hc; discriminate Hc.
Defined.

(** X10: after a successful resize to a size in [0, INT32_MAX] the
    bounds check is decided against the new size: it always gives a
    verdict, and accepts exactly the requests that fit the new size. *)
Theorem resized_pool_bounds_use_new_size answer res x pp p new_size
    offset width height stride h :
  resources h !! res = Some x → res_data x = Some pp → pools h !! pp = Some p →
  answer ≠ MAP_FAILED → 0 <= new_size <= INT32_MAX →
  ∃ h',
    shm_pool_resize answer res new_size h = Ok (tt, h', []) ∧
    (fst (invalid_geometry (Some pp) offset width height stride h') = Ok false ↔
     0 <= offset ∧ 0 < width ∧ width <= stride ∧
     0 < height ∧ height < INT32_MAX / stride ∧
     offset + stride * height <= new_size) ∧
    (fst (invalid_geometry (Some pp) offset width height stride h') = Ok false ∨
     fst (invalid_geometry (Some pp) offset width height stride h') = Ok true).
Proof.
  intros Hres Hdata Hp Hok Hsize.
  rewrite (resize_done answer res x pp p new_size h Hres Hdata Hp Hok).
  eexists. split; [done|].
  set (h' := Heap _ _ _ _ _).
  assert (pool_at h' (Some pp) = Some (set_size new_size (set_data answer p))) as Hp'
    by (simpl; by rewrite lookup_insert_eq).
  split.
  - by apply (bounds_check_exact (Some pp) _ offset width height stride h' Hp').
  - destruct (fst (invalid_geometry (Some pp) offset width height stride h'))
      as [[]|f] eqn:Hv; [by right|by left|].
    revert Hv. rewrite invalid_geometry_unfold, Hp'. by repeat case_match.
Qed.

Lemma resized_pool_bounds_use_new_size_witness :
  ∃ h',
    shm_pool_resize 65536 2%positive 8192 buffer_heap = Ok (tt, h', []) ∧
    (fst (invalid_geometry (Some 1%positive) 4096 32 32 128 h') = Ok false ↔
     0 <= 4096 ∧ 0 < 32 ∧ 32 <= 128 ∧ 0 < 32 ∧ 32 < INT32_MAX / 128 ∧
     4096 + 128 * 32 <= 8192) ∧
    (fst (invalid_geometry (Some 1%positive) 4096 32 32 128 h') = Ok false ∨
     fst (invalid_geometry (Some 1%positive) 4096 32 32 128 h') = Ok true).
Proof.
  apply (resized_pool_bounds_use_new_size 65536 2%positive
           (Wl_resource wl_shm_pool_interface 2 (Some shm_pool_interface)
              (Some 1%positive) (Some Destroy_pool))
           1%positive (Wl_shm_pool (Some 2%positive) 2 4096 4096) 8192
           4096 32 32 128 buffer_heap);
    try reflexivity.
  - intros Hc; discriminate Hc.
  - vm_compute. split; intros Hc; discriminate Hc.
Defined.

(** X8: a request that the bounds check accepts against a pool of some
    size is accepted against the same pool at any larger size up to
    [INT32_MAX]: growing a pool never turns an acceptable request
    down. *)
Theorem bounds_check_monotone pool p p' offset width height stride h h' :
  pool_at h pool = Some p → pool_at h' pool = Some p' →
  0 <= size p → size p <= size p' → size p' <= INT32_MAX →
  fst (invalid_geometry pool offset width height stride h) = Ok false →
  fst (invalid_geometry pool offset width height stride h') = Ok false.
Proof.
  intros Hp Hp' Hlo Hle Hhi Hgeo.
  apply (bounds_check_exact pool p offset width height stride h Hp) in Hgeo; [|lia].
  apply (bounds_check_exact pool p' offset width height stride h' Hp'); lia.
Qed.

Lemma bind_shm_paths create_ok data id h :
  bind_shm create_ok data id h =
  if create_ok
  then Ok (tt,
           Heap (pools h) (buffers h)
             (<[fresh (dom (resources h)) :=
                  Wl_resource wl_shm_interface id (Some shm_interface) data None]>
                (resources h))
             (mappings h) (fds h),
           [SendFormat (fresh (dom (resources h))) WL_SHM_FORMAT_ARGB8888;
            SendFormat (fresh (dom (resources h))) WL_SHM_FORMAT_XRGB8888])
  else Ok (tt, h, [Posted EvNoMemory]).
Proof.
  unfold bind_shm, wl_resource_create. destruct create_ok; exec; [|done].
  by rewrite insert_insert_eq.
Qed.

(** X11: [bind_shm] advertises exactly the formats that the [switch] of
    the two buffer constructors accepts; the handle it creates is bound
    to [shm_interface], has no destructor, and is not taken for a buffer
    by [wl_shm_buffer_get]; when the handle cannot be created it sends
    the no-memory notification and changes nothing. *)
Theorem advertised_formats_are_the_accepted_ones data id h :
  ∃ h' t,
    bind_shm true data id h = Ok (tt, h', t) ∧
    (∀ format, format ∈ advertised t ↔ switch_format format = true) ∧
    resources h' !! fresh (dom (resources h))
    = Some (Wl_resource wl_shm_interface id (Some shm_interface) data None) ∧
    fst (wl_shm_buffer_get (Some (fresh (dom (resources h)))) h') = Ok None ∧
    bind_shm false data id h = Ok (tt, h, [Posted EvNoMemory]).
Proof.
  rewrite !bind_shm_paths. eexists _, _. split; [done|].
  set (h' := Heap _ _ _ _ _).
  assert (resources h' !! fresh (dom (resources h))
          = Some (Wl_resource wl_shm_interface id (Some shm_interface) data None))
    as Hr by (simpl; by rewrite lookup_insert_eq).
  split.
  { intros format. rewrite switch_format_whitelist. simpl.
    rewrite !elem_of_cons, elem_of_nil. tauto. }
  split; [done|]. split; [|done].
  by rewrite (buffer_get_live _ _ h' Hr).
Qed.

(** ** The invariant is kept *)

Lemma count_insert_fresh {A} (P : A → Prop) `{∀ x, Decision (P x)}
    (m : gmap ptr A) k v :
  m !! k = None →
  count P (<[k := v]> m) = if decide (P v) then S (count P m) else count P m.
Proof.
  intros Hk. unfold count. destruct (decide (P v)) as [Hv|Hv].
  - rewrite map_filter_insert_True by done.
    apply map_size_insert_None. by rewrite map_lookup_filter_None_2; [|left].
  - rewrite map_filter_insert_False by done. by rewrite delete_id.
Qed.

Lemma count_delete {A} (P : A → Prop) `{∀ x, Decision (P x)} (m : gmap ptr A) k v :
  m !! k = Some v →
  count P m = if decide (P v) then S (count P (delete k m)) else count P (delete k m).
Proof.
  intros Hk. unfold count. rewrite map_filter_delete.
  destruct (decide (P v)) as [Hv|Hv].
  - rewrite <- (insert_delete_id (filter (λ kx, P kx.2) m) k v) at 1
      by by apply map_lookup_filter_Some_2.
    apply map_size_insert_None, lookup_delete_eq.
  - rewrite delete_id; [done|].
    apply map_lookup_filter_None_2. right. intros v' Hv'. simplify_eq. done.
Qed.

Lemma count_none {A} (P : A → Prop) `{∀ x, Decision (P x)} (m : gmap ptr A) k v :
  count P m = 0%nat → m !! k = Some v → ¬ P v.
Proof.
  unfold count. intros Hz Hk Hv. apply map_size_empty_inv in Hz.
  assert (filter (λ kx, P kx.2) m !! k = Some v) as Hin
    by by apply map_lookup_filter_Some_2.
  by rewrite Hz, lookup_empty in Hin.
Qed.

Lemma count_nothing {A} (P : A → Prop) `{∀ x, Decision (P x)} (m : gmap ptr A) :
  (∀ k v, m !! k = Some v → ¬ P v) → count P m = 0%nat.
Proof.
  intros Hno. unfold count. apply map_size_empty_iff, map_empty. intros k.
  apply map_lookup_filter_None_2.
  destruct (m !! k) as [v|] eqn:Hk; [right|by left].
  intros v' [= <-]. by apply (Hno k).
Qed.

Lemma consistent_fds h s :
  consistent h →
  consistent (Heap (pools h) (buffers h) (resources h) (mappings h) s).
Proof. intros []. by constructor. Qed.

(** Nothing points to an object that is not allocated. *)
Lemma unreferenced_fresh h pp :
  consistent h → pools h !! pp = None → references h pp = 0.
Proof.
  intros Hc Hpp. unfold references.
  rewrite !count_nothing; [done|..].
  - intros b o Hb Hpool.
    destruct (buffer_pool_live h Hc b o pp Hb Hpool) as [? ?]. congruence.
  - intros r x Hr [Hkind Hdata].
    destruct (handle_pool_live h Hc r x Hr Hkind) as (pp' & Hdata' & [? ?]).
    congruence.
Qed.

Lemma consistent_pool_added h pp r a sz id s :
  consistent h → pools h !! pp = None → resources h !! r = None →
  mappings h !! a = None →
  consistent
    (Heap (<[pp := Wl_shm_pool (Some r) 1 a sz]> (pools h)) (buffers h)
       (<[r := Wl_resource wl_shm_pool_interface id (Some shm_pool_interface)
                 (Some pp) (Some Destroy_pool)]> (resources h))
       (<[a := sz]> (mappings h)) s).
Proof.
  intros Hc Hpp Hr Ha.
  pose proof (unreferenced_fresh h pp Hc Hpp) as Hzero.
  destruct Hc as [Hcount Hmapped Hregions Hbp Hhp Hhb Htab].
  constructor; simpl.
  - intros pp0 p0 Hp0. unfold references in *. simpl.
    rewrite count_insert_fresh by done.
    destruct (decide (pp0 = pp)) as [->|Hne].
    + rewrite lookup_insert_eq in Hp0. simplify_eq. simpl.
      rewrite decide_True by done. unfold INT32_MAX. lia.
    + rewrite lookup_insert_ne in Hp0 by done.
      rewrite decide_False by (intros [_ ?]; simpl in *; congruence).
      by apply Hcount.
  - intros pp0 p0 Hp0. destruct (decide (pp0 = pp)) as [->|Hne].
    + rewrite lookup_insert_eq in Hp0. simplify_eq. simpl. by rewrite lookup_insert_eq.
    + rewrite lookup_insert_ne in Hp0 by done.
      pose proof (Hmapped _ _ Hp0). rewrite lookup_insert_ne; [done|congruence].
  - intros pp0 pp1 p0 p1 Hp0 Hp1 Hsame.
    destruct (decide (pp0 = pp)) as [->|Hne0], (decide (pp1 = pp)) as [->|Hne1];
      [done|..]; simplify_map_eq.
    + pose proof (Hmapped _ _ Hp1). congruence.
    + pose proof (Hmapped _ _ Hp0). congruence.
    + eauto.
  - intros b o pp0 Hb Hpool. rewrite lookup_insert_is_Some'. eauto.
  - intros r0 x0 Hr0 Hkind. destruct (decide (r0 = r)) as [->|Hne]; simplify_map_eq.
    + eexists. split; [done|]. by rewrite lookup_insert_eq.
    + destruct (Hhp _ _ Hr0 Hkind) as (pp0 & ? & ?). exists pp0. split; [done|].
      rewrite lookup_insert_is_Some'. eauto.
  - intros r0 x0 Hr0 Hkind. destruct (decide (r0 = r)) as [->|Hne]; simplify_map_eq.
    eauto.
  - intros r0 x0 Hr0. destruct (decide (r0 = r)) as [->|Hne]; simplify_map_eq;
      [by split|eauto].
Qed.

Lemma consistent_buffer_added h b r id hdr extra pp p :
  consistent h → buffers h !! b = None → resources h !! r = None →
  pools h !! pp = Some p → refcount p < INT32_MAX → pool hdr = Some pp →
  consistent
    (with_buffer b r id hdr extra
       (set_pools <[pp := set_refcount (refcount p + 1) p]> h)).
Proof.
  intros Hc Hb Hr Hp Hroom Hpool.
  destruct Hc as [Hcount Hmapped Hregions Hbp Hhp Hhb Htab].
  constructor; simpl.
  - intros pp0 p0 Hp0. unfold references in *. simpl.
    rewrite !count_insert_fresh by done.
    rewrite (decide_False (P := is_pool_handle pp0 _)) by by intros [? _].
    destruct (decide (pp0 = pp)) as [->|Hne].
    + rewrite lookup_insert_eq in Hp0. simplify_eq. simpl.
      rewrite decide_True by done.
      destruct (Hcount _ _ Hp) as [Hrc ?]. rewrite Hrc in *.
      unfold INT32_MAX in *. lia.
    + rewrite lookup_insert_ne in Hp0 by done.
      rewrite decide_False by (unfold is_pool_buffer; simpl; congruence).
      by apply Hcount.
  - intros pp0 p0 Hp0. destruct (decide (pp0 = pp)) as [->|Hne]; simplify_map_eq; eauto.
  - intros pp0 pp1 p0 p1 Hp0 Hp1 Hsame.
    destruct (decide (pp0 = pp)) as [->|Hne0], (decide (pp1 = pp)) as [->|Hne1];
      [done|..]; simplify_map_eq; eauto.
  - intros b0 o0 pp0 Hb0 Hpool0. rewrite lookup_insert_is_Some'.
    destruct (decide (b0 = b)) as [->|Hne]; simplify_map_eq; [by left|eauto].
  - intros r0 x0 Hr0 Hkind. destruct (decide (r0 = r)) as [->|Hne]; simplify_map_eq.
    destruct (Hhp _ _ Hr0 Hkind) as (pp0 & ? & ?). exists pp0. split; [done|].
    rewrite lookup_insert_is_Some'. eauto.
  - intros r0 x0 Hr0 Hkind. destruct (decide (r0 = r)) as [->|Hne]; simplify_map_eq.
    + eexists _, _. by rewrite lookup_insert_eq.
    + destruct (Hhb _ _ Hr0 Hkind) as (b0 & o0 & ? & Hb0 & ?). exists b0, o0.
      split; [done|]. split; [|done]. rewrite lookup_insert_ne; [done|congruence].
  - intros r0 x0 Hr0. destruct (decide (r0 = r)) as [->|Hne]; simplify_map_eq;
      [by split|eauto].
Qed.

Lemma consistent_standalone_added h b r id hdr extra :
  consistent h → buffers h !! b = None → resources h !! r = None →
  pool hdr = None →
  consistent (with_buffer b r id hdr extra h).
Proof.
  intros Hc Hb Hr Hpool.
  destruct Hc as [Hcount Hmapped Hregions Hbp Hhp Hhb Htab].
  constructor; simpl; [|done|done|..].
  - intros pp0 p0 Hp0. unfold references in *. simpl.
    rewrite !count_insert_fresh by done.
    rewrite (decide_False (P := is_pool_handle pp0 _)) by by intros [? _].
    rewrite decide_False by (unfold is_pool_buffer; simpl; congruence).
    by apply Hcount.
  - intros b0 o0 pp0 Hb0 Hpool0.
    destruct (decide (b0 = b)) as [->|Hne]; simplify_map_eq; eauto.
  - intros r0 x0 Hr0 Hkind. destruct (decide (r0 = r)) as [->|Hne]; simplify_map_eq.
    eauto.
  - intros r0 x0 Hr0 Hkind. destruct (decide (r0 = r)) as [->|Hne]; simplify_map_eq.
    + eexists _, _. by rewrite lookup_insert_eq.
    + destruct (Hhb _ _ Hr0 Hkind) as (b0 & o0 & ? & Hb0 & ?). exists b0, o0.
      split; [done|]. split; [|done]. rewrite lookup_insert_ne; [done|congruence].
  - intros r0 x0 Hr0. destruct (decide (r0 = r)) as [->|Hne]; simplify_map_eq;
      [by split|eauto].
Qed.

(** One reference to [pp] has gone from the handles [rs'] and the
    buffers [bs'] that are left; the pool is freed if it was the last,
    and counts one less otherwise. *)
Lemma consistent_released h pp p rs' bs' :
  consistent h → pools h !! pp = Some p →
  (∀ pp0, Z.of_nat (count (is_pool_handle pp0) rs' + count (is_pool_buffer pp0) bs')
          = references h pp0 - (if decide (pp0 = pp) then 1 else 0)) →
  (∀ r0 x0, rs' !! r0 = Some x0 → resources h !! r0 = Some x0) →
  (∀ b0 o0, bs' !! b0 = Some o0 → buffers h !! b0 = Some o0) →
  (∀ r0 x0 b0 o0, rs' !! r0 = Some x0 → res_data x0 = Some b0 →
                  buffers h !! b0 = Some o0 → resource (header o0) = Some r0 →
                  bs' !! b0 = Some o0) →
  consistent
    (if decide (refcount p = 1)
     then Heap (delete pp (pools h)) bs' rs' (delete (data p) (mappings h)) (fds h)
     else Heap (<[pp := set_refcount (refcount p - 1) p]> (pools h)) bs' rs'
            (mappings h) (fds h)).
Proof.
  intros Hc Hp Hrefs Hrs Hbs Hback.
  destruct Hc as [Hcount Hmapped Hregions Hbp Hhp Hhb Htab].
  destruct (Hcount _ _ Hp) as [Hrc Hrange].
  assert (∀ r0 x0, rs' !! r0 = Some x0 → res_destroy x0 = Some Destroy_buffer →
            ∃ b0 o0, res_data x0 = Some b0 ∧ bs' !! b0 = Some o0 ∧
                     resource (header o0) = Some r0) as Hhb'.
  { intros r0 x0 Hr0 Hkind.
    destruct (Hhb _ _ (Hrs _ _ Hr0) Hkind) as (b0 & o0 & Hd & Hb0 & Hres).
    exists b0, o0. eauto. }
  assert (∀ r0 x0, rs' !! r0 = Some x0 →
            (res_implementation x0 = Some shm_pool_interface →
             res_destroy x0 = Some Destroy_pool) ∧
            (res_implementation x0 = Some shm_buffer_interface →
             res_destroy x0 = Some Destroy_buffer)) as Htab' by eauto.
  destruct (decide (refcount p = 1)) as [Hone|Hmore].
  - pose proof (Hrefs pp) as Hzero. rewrite decide_True, <- Hrc, Hone in Hzero by done.
    assert (count (is_pool_handle pp) rs' = 0%nat ∧
            count (is_pool_buffer pp) bs' = 0%nat) as [Hnoh Hnob] by lia.
    constructor; simpl; [..|done|done].
    + intros pp0 p0 Hp0. apply lookup_delete_Some in Hp0 as [Hne Hp0].
      unfold references. simpl. rewrite Hrefs, decide_False by done.
      rewrite Z.sub_0_r. by apply Hcount.
    + intros pp0 p0 Hp0. apply lookup_delete_Some in Hp0 as [Hne Hp0].
      rewrite lookup_delete_ne; [eauto|]. intros Hsame. by destruct (Hne (Hregions _ _ _ _ Hp Hp0 Hsame)).
    + intros pp0 pp1 p0 p1 Hp0 Hp1.
      apply lookup_delete_Some in Hp0 as [_ Hp0]. apply lookup_delete_Some in Hp1 as [_ Hp1].
      eauto.
    + intros b0 o0 pp0 Hb0 Hpool0.
      destruct (decide (pp0 = pp)) as [->|Hne].
      * by destruct (count_none _ bs' b0 o0 Hnob Hb0).
      * rewrite lookup_delete_ne by done. eauto.
    + intros r0 x0 Hr0 Hkind.
      destruct (Hhp _ _ (Hrs _ _ Hr0) Hkind) as (pp0 & Hd & Hlive).
      exists pp0. split; [done|].
      destruct (decide (pp0 = pp)) as [->|Hne].
      * by destruct (count_none _ rs' r0 x0 Hnoh Hr0).
      * by rewrite lookup_delete_ne.
  - constructor; simpl; [..|done|done].
    + intros pp0 p0 Hp0. unfold references. simpl. rewrite Hrefs.
      destruct (decide (pp0 = pp)) as [->|Hne].
      * rewrite lookup_insert_eq in Hp0. simplify_eq. simpl. lia.
      * rewrite lookup_insert_ne in Hp0 by done. rewrite Z.sub_0_r. by apply Hcount.
    + intros pp0 p0 Hp0.
      destruct (decide (pp0 = pp)) as [->|Hne]; simplify_map_eq; eauto.
    + intros pp0 pp1 p0 p1 Hp0 Hp1 Hsame.
      destruct (decide (pp0 = pp)) as [->|Hne0], (decide (pp1 = pp)) as [->|Hne1];
        [done|..]; simplify_map_eq; eauto.
    + intros b0 o0 pp0 Hb0 Hpool0. rewrite lookup_insert_is_Some'. eauto.
    + intros r0 x0 Hr0 Hkind.
      destruct (Hhp _ _ (Hrs _ _ Hr0) Hkind) as (pp0 & Hd & Hlive).
      exists pp0. split; [done|]. rewrite lookup_insert_is_Some'. eauto.
Qed.

(** Handles and buffers have gone, none of which counted for a pool. *)
Lemma consistent_shrunk h rs' bs' :
  consistent h →
  (∀ pp0, Z.of_nat (count (is_pool_handle pp0) rs' + count (is_pool_buffer pp0) bs')
          = references h pp0) →
  (∀ r0 x0, rs' !! r0 = Some x0 → resources h !! r0 = Some x0) →
  (∀ b0 o0, bs' !! b0 = Some o0 → buffers h !! b0 = Some o0) →
  (∀ r0 x0 b0 o0, rs' !! r0 = Some x0 → res_data x0 = Some b0 →
                  buffers h !! b0 = Some o0 → resource (header o0) = Some r0 →
                  bs' !! b0 = Some o0) →
  consistent (Heap (pools h) bs' rs' (mappings h) (fds h)).
Proof.
  intros Hc Hrefs Hrs Hbs Hback.
  destruct Hc as [Hcount Hmapped Hregions Hbp Hhp Hhb Htab].
  constructor; simpl; eauto.
  - intros pp0 p0 Hp0. unfold references. simpl. rewrite Hrefs. by apply Hcount.
  - intros r0 x0 Hr0 Hkind.
    destruct (Hhb _ _ (Hrs _ _ Hr0) Hkind) as (b0 & o0 & Hd & Hb0 & Hres).
    exists b0, o0. eauto.
Qed.

Lemma consistent_resized h pp p a sz :
  consistent h → pools h !! pp = Some p →
  a = data p ∨ mappings h !! a = None →
  consistent
    (Heap (<[pp := set_size sz (set_data a p)]> (pools h)) (buffers h) (resources h)
       (<[a := sz]> (delete (data p) (mappings h))) (fds h)).
Proof.
  intros Hc Hp Ha.
  destruct Hc as [Hcount Hmapped Hregions Hbp Hhp Hhb Htab].
  assert (∀ pp0 p0, pools h !! pp0 = Some p0 → pp0 ≠ pp →
            data p0 ≠ a ∧ data p0 ≠ data p) as Hother.
  { intros pp0 p0 Hp0 Hne.
    assert (data p0 ≠ data p) by (intros Hsame; by destruct (Hne (Hregions _ _ _ _ Hp0 Hp Hsame))).
    split; [|done]. destruct Ha as [->|Ha]; [done|].
    pose proof (Hmapped _ _ Hp0). congruence. }
  constructor; simpl; [..|done|done].
  - intros pp0 p0 Hp0. unfold references. simpl.
    destruct (decide (pp0 = pp)) as [->|Hne]; simplify_map_eq; by apply Hcount.
  - intros pp0 p0 Hp0. destruct (decide (pp0 = pp)) as [->|Hne].
    + rewrite lookup_insert_eq in Hp0. simplify_eq. simpl. by rewrite lookup_insert_eq.
    + rewrite lookup_insert_ne in Hp0 by done.
      destruct (Hother _ _ Hp0 Hne).
      rewrite lookup_insert_ne, lookup_delete_ne by done. eauto.
  - intros pp0 pp1 p0 p1 Hp0 Hp1 Hsame.
    destruct (decide (pp0 = pp)) as [->|Hne0], (decide (pp1 = pp)) as [->|Hne1];
      [done|..]; simplify_map_eq.
    + by destruct (Hother _ _ Hp1 Hne1).
    + by destruct (Hother _ _ Hp0 Hne0).
    + eauto.
  - intros b0 o0 pp0 Hb0 Hpool0. rewrite lookup_insert_is_Some'. eauto.
  - intros r0 x0 Hr0 Hkind.
    destruct (Hhp _ _ Hr0 Hkind) as (pp0 & Hd & Hlive).
    exists pp0. split; [done|]. rewrite lookup_insert_is_Some'. eauto.
Qed.

Lemma invalid_geometry_defined pool p offset width height stride h :
  pool_at h pool = Some p →
  fst (invalid_geometry pool offset width height stride h) = Ok true ∨
  fst (invalid_geometry pool offset width height stride h) = Ok false.
Proof.
  intros Hp. rewrite invalid_geometry_unfold, Hp.
  repeat case_match; simpl; auto.
  destruct (offset >? _); auto.
Qed.

Lemma unref_test n :
  1 <= n <= INT32_MAX → (wrap32 (n - 1) =? 0) = bool_decide (n = 1) ∧ wrap32 (n - 1) = n - 1.
Proof.
  intros Hn. rewrite wrap32_small by (unfold in_int32, INT32_MIN, INT32_MAX in *; lia).
  split; [|done]. case_bool_decide; lia.
Qed.

Lemma handle_dropped_counts h res x pp0 :
  resources h !! res = Some x →
  Z.of_nat (count (is_pool_handle pp0) (delete res (resources h))
            + count (is_pool_buffer pp0) (buffers h))
  = references h pp0 - (if decide (is_pool_handle pp0 x) then 1 else 0).
Proof.
  intros Hres. unfold references.
  rewrite (count_delete (is_pool_handle pp0) (resources h) res x Hres).
  destruct (decide (is_pool_handle pp0 x)); lia.
Qed.

Lemma buffer_dropped_counts h res x b o pp0 :
  resources h !! res = Some x → res_destroy x = Some Destroy_buffer →
  buffers h !! b = Some o →
  Z.of_nat (count (is_pool_handle pp0) (delete res (resources h))
            + count (is_pool_buffer pp0) (delete b (buffers h)))
  = references h pp0 - (if decide (is_pool_buffer pp0 o) then 1 else 0).
Proof.
  intros Hres Hkind Hb. unfold references.
  rewrite (count_delete (is_pool_handle pp0) (resources h) res x Hres).
  rewrite (count_delete (is_pool_buffer pp0) (buffers h) b o Hb).
  rewrite (decide_False (P := is_pool_handle pp0 x)) by (intros [? _]; congruence).
  destruct (decide (is_pool_buffer pp0 o)); lia.
Qed.

Lemma pool_handle_destroyed h res x :
  consistent h → resources h !! res = Some x →
  res_destroy x = Some Destroy_pool →
  ∃ h' t, wl_resource_destroy res h = Ok (tt, h', t) ∧ consistent h'.
Proof.
  intros Hc Hres Hkind.
  destruct (handle_pool_live h Hc res x Hres Hkind) as (pp & Hdata & [p Hp]).
  destruct (pool_counted h Hc pp p Hp) as [_ Hrange].
  destruct (unref_test _ Hrange) as [Htest Hdec].
  rewrite (destroy_pool_handle res x pp p h Hres Hkind Hdata Hp), Htest, Hdec.
  pose proof (consistent_released h pp p (delete res (resources h)) (buffers h) Hc Hp)
    as Hrel.
  case_bool_decide as Hone.
  - eexists _, _. split; [done|].
    rewrite decide_True in Hrel by done. apply Hrel.
    + intros pp0. rewrite (handle_dropped_counts h res x pp0 Hres).
      destruct (decide (pp0 = pp)) as [->|Hne].
      * by rewrite decide_True.
      * rewrite decide_False; [done|]. intros [_ ?]. congruence.
    + intros r0 x0 Hr0. by apply lookup_delete_Some in Hr0 as [_ ?].
    + done.
    + done.
  - eexists _, _. split; [done|].
    rewrite decide_False in Hrel by done. apply Hrel.
    + intros pp0. rewrite (handle_dropped_counts h res x pp0 Hres).
      destruct (decide (pp0 = pp)) as [->|Hne].
      * by rewrite decide_True.
      * rewrite decide_False; [done|]. intros [_ ?]. congruence.
    + intros r0 x0 Hr0. by apply lookup_delete_Some in Hr0 as [_ ?].
    + done.
    + done.
Qed.

Lemma buffer_handle_destroyed h res x :
  consistent h → resources h !! res = Some x →
  res_destroy x = Some Destroy_buffer →
  ∃ h' t, wl_resource_destroy res h = Ok (tt, h', t) ∧ consistent h'.
Proof.
  intros Hc Hres Hkind.
  destruct (handle_buffer_live h Hc res x Hres Hkind) as (b & o & Hdata & Hb & Hback).
  assert (∀ r0 x0, delete res (resources h) !! r0 = Some x0 →
            resources h !! r0 = Some x0) as Hrs
    by (intros r0 x0 Hr0; by apply lookup_delete_Some in Hr0 as [_ ?]).
  assert (∀ b0 o0, delete b (buffers h) !! b0 = Some o0 →
            buffers h !! b0 = Some o0) as Hbs
    by (intros b0 o0 Hb0; by apply lookup_delete_Some in Hb0 as [_ ?]).
  assert (∀ r0 x0 b0 o0, delete res (resources h) !! r0 = Some x0 →
            res_data x0 = Some b0 → buffers h !! b0 = Some o0 →
            resource (header o0) = Some r0 →
            delete b (buffers h) !! b0 = Some o0) as Hkeep.
  { intros r0 x0 b0 o0 Hr0 _ Hb0 Hback0.
    apply lookup_delete_Some in Hr0 as [Hne _].
    rewrite lookup_delete_ne; [done|]. intros <-. congruence. }
  destruct (pool (header o)) as [pp|] eqn:Hpool.
  - destruct (buffer_pool_live h Hc b o pp Hb Hpool) as [p Hp].
    destruct (pool_counted h Hc pp p Hp) as [_ Hrange].
    destruct (unref_test _ Hrange) as [Htest Hdec].
    rewrite (destroy_buffer_handle res x b o pp p h Hres Hkind Hdata Hb Hpool Hp),
      Htest, Hdec.
    pose proof (consistent_released h pp p (delete res (resources h))
                  (delete b (buffers h)) Hc Hp) as Hrel.
    assert (∀ pp0,
              Z.of_nat (count (is_pool_handle pp0) (delete res (resources h))
                        + count (is_pool_buffer pp0) (delete b (buffers h)))
              = references h pp0 - (if decide (pp0 = pp) then 1 else 0)) as Hrefs.
    { intros pp0. rewrite (buffer_dropped_counts h res x b o pp0 Hres Hkind Hb).
      destruct (decide (pp0 = pp)) as [->|Hne].
      - by rewrite decide_True.
      - rewrite decide_False; [done|]. unfold is_pool_buffer. congruence. }
    case_bool_decide as Hone.
    + eexists _, _. split; [done|]. rewrite decide_True in Hrel by done. by apply Hrel.
    + eexists _, _. split; [done|]. rewrite decide_False in Hrel by done. by apply Hrel.
  - rewrite (destroy_standalone_handle res x b o h Hres Hkind Hdata Hb Hpool).
    eexists _, _. split; [done|].
    apply consistent_shrunk; [done| |done..].
    intros pp0. rewrite (buffer_dropped_counts h res x b o pp0 Hres Hkind Hb).
    rewrite decide_False; [lia|]. unfold is_pool_buffer. congruence.
Qed.

Lemma dispatch_keeps_consistent h r :
  consistent h → admissible h r →
  ∃ h' t, dispatch r h = Ok (tt, h', t) ∧ consistent h'.
Proof.
  intros Hc Hadm.
  destruct r as [malloc_ok answer create_ok res id fd sz
                |malloc_ok create_ok res id offset width height stride format
                |res|answer res sz|res]; simpl in *.
  - destruct malloc_ok.
    2:{ rewrite create_pool_no_memory. eexists _, _. split; [done|].
        by apply consistent_fds. }
    destruct (Z_le_gt_dec sz 0) as [Hsz|Hsz].
    { rewrite create_pool_invalid_size by done. by eexists _, _. }
    destruct (decide (answer = MAP_FAILED)) as [->|Hok].
    { rewrite create_pool_mmap_failed by lia. by eexists _, _. }
    destruct create_ok.
    + rewrite create_pool_created by (done || lia). eexists _, _. split; [done|].
      apply consistent_pool_added; auto using fresh_unused.
    + rewrite create_pool_unwound by (auto; lia). eexists _, _. split; [done|].
      by apply consistent_fds.
  - destruct Hadm as (x & Hres & Himpl & Hroom).
    destruct (handle_tables h Hc res x Hres) as [Hkind _]. specialize (Hkind Himpl).
    destruct (handle_pool_live h Hc res x Hres Hkind) as (pp & Hdata & [p Hp]).
    destruct (pool_counted h Hc pp p Hp) as [_ Hrange].
    specialize (Hroom pp p Hdata Hp).
    destruct (switch_format format) eqn:Hfmt.
    2:{ erewrite create_buffer_invalid_format by done. by eexists _, _. }
    destruct (invalid_geometry_defined (Some pp) p offset width height stride h Hp)
      as [Hgeo|Hgeo].
    { erewrite create_buffer_invalid_geometry; [by eexists _, _|done..|].
      by rewrite Hdata. }
    destruct malloc_ok.
    2:{ erewrite create_buffer_no_memory; [by eexists _, _|done..|]. by rewrite Hdata. }
    destruct create_ok.
    + rewrite (create_buffer_created res x pp p id offset width height stride format h)
        by done.
      eexists _, _. split; [done|].
      rewrite wrap32_small by (unfold in_int32, INT32_MIN, INT32_MAX in *; lia).
      apply consistent_buffer_added; auto using fresh_unused.
    + rewrite (create_buffer_unwound res x pp p id offset width height stride format h)
        by done.
      by eexists _, _.
  - destruct Hadm as (x & Hres & Himpl).
    destruct (handle_tables h Hc res x Hres) as [Hkind _].
    unfold shm_pool_destroy. apply (pool_handle_destroyed h res x); auto.
  - destruct Hadm as (x & Hres & Himpl & Hanswer).
    destruct (handle_tables h Hc res x Hres) as [Hkind _]. specialize (Hkind Himpl).
    destruct (handle_pool_live h Hc res x Hres Hkind) as (pp & Hdata & [p Hp]).
    destruct (decide (answer = MAP_FAILED)) as [->|Hok].
    { rewrite (resize_failed res x pp p sz h) by done. by eexists _, _. }
    rewrite (resize_done answer res x pp p sz h) by done.
    eexists _, _. split; [done|]. apply consistent_resized; [done..|].
    destruct Hanswer as [?|[?|(pp' & p' & ? & ? & ?)]]; [done|by right|left].
    by simplify_eq.
  - destruct Hadm as (x & Hres & Himpl).
    destruct (handle_tables h Hc res x Hres) as [_ Hkind].
    unfold shm_buffer_destroy. apply (buffer_handle_destroyed h res x); auto.
Qed.

(** X12: from a consistent heap, every sequence of requests that the
    dispatcher can deliver runs to the end without a fault (no
    dereference of a freed pool, buffer or handle, no division by zero)
    and ends in a consistent heap: the count of every live pool is the
    number of its handles and buffers and lies in [1, INT32_MAX], its
    region is mapped, and every buffer and handle points to a live
    object. *)
Theorem admissible_runs_never_fault rs : ∀ h,
  consistent h → admissible_run h rs →
  ∃ h' t, run rs h = Ok (tt, h', t) ∧ consistent h'.
Proof.
  induction rs as [|r rs IH]; intros h Hc Hadm.
  - by exists h, [].
  - destruct Hadm as [Hr Hrest].
    destruct (dispatch_keeps_consistent h r Hc Hr) as (h1 & t1 & Hstep & Hc1).
    destruct (IH h1 Hc1 (Hrest h1 t1 Hstep)) as (h' & t' & Hrun & Hc').
    exists h', (t1 ++ t'). rewrite run_cons, Hstep, Hrun. done.
Qed.

(** A heap without pools and buffers, whose handles are bound to
    neither table of this file and have no destructor. *)
Lemma consistent_without_objects h :
  pools h = ∅ → buffers h = ∅ →
  (∀ r x, resources h !! r = Some x →
          res_destroy x = None ∧
          res_implementation x ≠ Some shm_pool_interface ∧
          res_implementation x ≠ Some shm_buffer_interface) →
  consistent h.
Proof.
  intros Hpools Hbuffers Hplain.
  constructor.
  - intros pp p. by rewrite Hpools, lookup_empty.
  - intros pp p. by rewrite Hpools, lookup_empty.
  - intros pp pp' p p'. by rewrite Hpools, lookup_empty.
  - intros b o pp. by rewrite Hbuffers, lookup_empty.
  - intros r x Hr Hkind. destruct (Hplain r x Hr) as [? _]. congruence.
  - intros r x Hr Hkind. destruct (Hplain r x Hr) as [? _]. congruence.
  - intros r x Hr. destruct (Hplain r x Hr) as (_ & ? & ?). done.
Qed.

Lemma consistent_bound_heap : consistent bound_heap.
Proof.
  apply consistent_without_objects; [done..|].
  intros r x Hr. unfold bound_heap in Hr. simpl in Hr.
  apply lookup_singleton_Some in Hr as [_ <-]. done.
Qed.

Lemma consistent_handle_added h r x :
  consistent h → resources h !! r = None → res_destroy x = None →
  res_implementation x ≠ Some shm_pool_interface →
  res_implementation x ≠ Some shm_buffer_interface →
  consistent (Heap (pools h) (buffers h) (<[r := x]> (resources h)) (mappings h) (fds h)).
Proof.
  intros Hc Hr Hkind Hnp Hnb.
  destruct Hc as [Hcount Hmapped Hregions Hbp Hhp Hhb Htab].
  constructor; simpl; [|done..| | |].
  - intros pp0 p0 Hp0. unfold references in *. simpl.
    rewrite count_insert_fresh by done.
    rewrite decide_False by (intros [? _]; congruence). by apply Hcount.
  - intros r0 x0 Hr0 Hkind0.
    destruct (decide (r0 = r)) as [->|Hne]; simplify_map_eq. eauto.
  - intros r0 x0 Hr0 Hkind0.
    destruct (decide (r0 = r)) as [->|Hne]; simplify_map_eq. eauto.
  - intros r0 x0 Hr0.
    destruct (decide (r0 = r)) as [->|Hne]; simplify_map_eq; [done|eauto].
Qed.

(** X13: the entry points that are not requests keep a consistent heap
    consistent.  [bind_shm] returns on every outcome;
    [wl_shm_buffer_create] returns on every outcome when the product
    [stride * height] is not negative as an [int]; and whenever either
    returns, the heap it leaves is consistent. *)
Theorem server_calls_keep_heap_consistent h :
  consistent h →
  (∀ create_ok data id,
     ∃ h' t, bind_shm create_ok data id h = Ok (tt, h', t) ∧ consistent h') ∧
  (∀ malloc_ok create_ok id width height stride format,
     0 <= wrap32 (stride * height) →
     ∃ v h' t,
       wl_shm_buffer_create malloc_ok create_ok id width height stride format h
       = Ok (v, h', t) ∧ consistent h') ∧
  (∀ malloc_ok create_ok id width height stride format v h' t,
     wl_shm_buffer_create malloc_ok create_ok id width height stride format h
     = Ok (v, h', t) → consistent h').
Proof.
  intros Hc. split; [|split].
  - intros create_ok data id. rewrite bind_shm_paths.
    destruct create_ok; eexists _, _; (split; [done|]); [|done].
    apply consistent_handle_added; auto using fresh_unused.
  - intros malloc_ok create_ok id width height stride format Hpos.
    rewrite buffer_create_paths by done.
    destruct (switch_format format && malloc_ok && create_ok);
      eexists _, _, _; (split; [done|]); [|done].
    apply consistent_standalone_added; auto using fresh_unused.
  - intros malloc_ok create_ok id width height stride format v h' t.
    rewrite buffer_create_all_paths.
    destruct (switch_format format && malloc_ok); [|by intros [= <- <- <-]].
    destruct (_ <? 0); [done|].
    destruct create_ok; intros [= <- <- <-]; [|done].
    apply consistent_standalone_added; auto using fresh_unused.
Qed.

(** X14: in a consistent heap [wl_shm_buffer_get] is defined on every
    live handle, and a buffer it returns is live and is the one of that
    handle; its data address is its own storage, or the base of its pool
    + its offset, where the pool is still allocated, still counted, and
    its base is the start of a mapping of the size of the pool.  That
    the offset lies inside that mapping is not part of this statement:
    a granted shrink can leave it outside. *)
Theorem buffers_never_outlive_their_pool h r x :
  consistent h → resources h !! r = Some x →
  ∃ v, fst (wl_shm_buffer_get (Some r) h) = Ok v ∧
       ∀ b, v = Some b →
         ∃ o, buffers h !! b = Some o ∧ resource (header o) = Some r ∧
              match pool (header o) with
              | None =>
                  fst (wl_shm_buffer_get_data (Some b) h) = Ok (Inline (Some b))
              | Some pp =>
                  ∃ p, pools h !! pp = Some p ∧ 1 <= refcount p ∧
                       mappings h !! data p = Some (size p) ∧
                       fst (wl_shm_buffer_get_data (Some b) h)
                       = Ok (Mapped (data p + offset (header o)))
              end.
Proof.
  intros Hc Hr. rewrite (buffer_get_live r x h Hr). eexists. split; [done|].
  intros b Hv.
  destruct (bool_decide (res_interface x = wl_buffer_interface)
            && bool_decide (res_implementation x = Some shm_buffer_interface))
    eqn:Hinst; [|done].
  apply andb_true_iff in Hinst as [_ Himpl]. apply bool_decide_eq_true in Himpl.
  destruct (handle_tables h Hc r x Hr) as [_ Hkind]. specialize (Hkind Himpl).
  destruct (handle_buffer_live h Hc r x Hr Hkind) as (b' & o & Hdata & Hb & Hback).
  assert (b' = b) as -> by congruence.
  exists o. split; [done|]. split; [done|].
  destruct (pool (header o)) as [pp|] eqn:Hpool.
  - destruct (buffer_pool_live h Hc b o pp Hb Hpool) as [p Hp].
    destruct (pool_counted h Hc pp p Hp) as [_ Hrange].
    exists p. split; [done|]. split; [lia|].
    split; [by apply (pool_mapped h Hc pp)|].
    by rewrite (buffer_get_data_pool b o pp p h Hb Hpool Hp).
  - unfold wl_shm_buffer_get_data. exec with Hb. by rewrite Hpool.
Qed.

Lemma consistent_pool_heap : consistent pool_heap.
Proof.
  destruct (dispatch_keeps_consistent bound_heap
              (Create_pool true 4096 true 1%positive 2 5 4096) consistent_bound_heap)
    as (h' & t & Hd & Hc); [by intros _|].
  vm_compute in Hd. by injection Hd as <- <-.
Qed.

Lemma consistent_buffer_heap : consistent buffer_heap.
Proof.
  destruct (dispatch_keeps_consistent pool_heap
              (Pool_create_buffer true true 2%positive 3 0 32 32 128
                 WL_SHM_FORMAT_ARGB8888) consistent_pool_heap)
    as (h' & t & Hd & Hc).
  { eexists. split; [reflexivity|]. split; [reflexivity|].
    intros pp p [= <-] Hp. vm_compute in Hp. by injection Hp as <-. }
  vm_compute in Hd. by injection Hd as <- <-.
Qed.

Lemma admissible_runs_never_fault_witness :
  ∃ h' t,
    run [Create_pool true 4096 true 1%positive 2 5 4096;
         Pool_create_buffer true true 2%positive 3 0 32 32 128 WL_SHM_FORMAT_ARGB8888;
         Pool_resize 65536 2%positive 8192;
         Pool_destroy 2%positive;
         Buffer_destroy 3%positive] bound_heap = Ok (tt, h', t) ∧
    consistent h'.
Proof.
  apply (admissible_runs_never_fault
           [Create_pool true 4096 true 1%positive 2 5 4096;
            Pool_create_buffer true true 2%positive 3 0 32 32 128
              WL_SHM_FORMAT_ARGB8888;
            Pool_resize 65536 2%positive 8192;
            Pool_destroy 2%positive;
            Buffer_destroy 3%positive] bound_heap consistent_bound_heap).
  split; [intros _; reflexivity|].
  intros h1 t1 Hd. vm_compute in Hd. injection Hd as <- <-.
  split.
  { eexists. split; [reflexivity|]. split; [reflexivity|].
    intros pp p [= <-] Hp. vm_compute in Hp. injection Hp as <-. reflexivity. }
  intros h2 t2 Hd. vm_compute in Hd. injection Hd as <- <-.
  split.
  { eexists. split; [reflexivity|]. split; [reflexivity|]. right. left. reflexivity. }
  intros h3 t3 Hd. vm_compute in Hd. injection Hd as <- <-.
  split; [eexists; split; reflexivity|].
  intros h4 t4 Hd. vm_compute in Hd. injection Hd as <- <-.
  split; [eexists; split; reflexivity|].
  intros h5 t5 Hd. exact I.
Defined.

Lemma server_calls_keep_heap_consistent_witness :
  (∀ create_ok data id,
     ∃ h' t, bind_shm create_ok data id pool_heap = Ok (tt, h', t) ∧ consistent h') ∧
  (∀ malloc_ok create_ok id width height stride format,
     0 <= wrap32 (stride * height) →
     ∃ v h' t,
       wl_shm_buffer_create malloc_ok create_ok id width height stride format
         pool_heap = Ok (v, h', t) ∧ consistent h') ∧
  (∀ malloc_ok create_ok id width height stride format v h' t,
     wl_shm_buffer_create malloc_ok create_ok id width height stride format pool_heap
     = Ok (v, h', t) → consistent h').
Proof. exact (server_calls_keep_heap_consistent pool_heap consistent_pool_heap). Defined.

Lemma buffers_never_outlive_their_pool_witness :
  ∃ v, fst (wl_shm_buffer_get (Some 3%positive) buffer_heap) = Ok v ∧
       ∀ b, v = Some b →
         ∃ o, buffers buffer_heap !! b = Some o ∧
              resource (header o) = Some 3%positive ∧
              match pool (header o) with
              | None =>
                  fst (wl_shm_buffer_get_data (Some b) buffer_heap)
                  = Ok (Inline (Some b))
              | Some pp =>
                  ∃ p, pools buffer_heap !! pp = Some p ∧ 1 <= refcount p ∧
                       mappings buffer_heap !! data p = Some (size p) ∧
                       fst (wl_shm_buffer_get_data (Some b) buffer_heap)
                       = Ok (Mapped (data p + offset (header o)))
              end.
Proof.
  eapply (buffers_never_outlive_their_pool buffer_heap 3%positive _
            consistent_buffer_heap).
  reflexivity.
Defined.

(** ** The descriptor *)

(** X15: on the paths of [shm_create_pool] that do not jump to
    [err_free] (allocation failure, success, and failure to create the
    handle) the descriptor is closed exactly once and is no longer
    open. *)
Theorem descriptor_closed_off_err_free malloc_ok mmap_answer create_ok res id fd size h :
  malloc_ok = false ∨ (0 < size ∧ mmap_answer ≠ MAP_FAILED) →
  ∃ h' t,
    shm_create_pool malloc_ok mmap_answer create_ok res id fd size h = Ok (tt, h', t) ∧
    closes t = [fd] ∧ fds h' = fds h ∖ {[fd]}.
Proof.
  intros [->|[Hsize Hok]].
  - rewrite create_pool_no_memory. by eexists _, _.
  - destruct malloc_ok; [|rewrite create_pool_no_memory; by eexists _, _].
    destruct create_ok.
    + rewrite create_pool_created by done. by eexists _, _.
    + apply Z.eqb_neq in Hok.
      unfold shm_create_pool, malloc_pool, wl_resource_create. exec.
      destruct (size <=? 0) eqn:?; [lia|]. exec. rewrite Hok. exec. rewrite Hok. exec.
      by eexists _, _.
Qed.

Lemma descriptor_closed_off_err_free_witness :
  ∃ h' t,
    shm_create_pool true 4096 false 1%positive 2 5 4096 bound_heap = Ok (tt, h', t) ∧
    closes t = [5] ∧ fds h' = fds bound_heap ∖ {[5]}.
Proof.
  apply (descriptor_closed_off_err_free true 4096 false 1%positive 2 5 4096 bound_heap).
  right. split; [reflexivity|intros Hc; discriminate Hc].
Defined.

Lemma bounds_check_monotone_witness :
  fst (invalid_geometry (Some 1%positive) 0 32 32 128
         (set_pools <[1%positive := Wl_shm_pool (Some 2%positive) 1 65536 8192]>
            pool_heap)) = Ok false.
Proof.
  apply (bounds_check_monotone (Some 1%positive)
           (Wl_shm_pool (Some 2%positive) 1 4096 4096)
           (Wl_shm_pool (Some 2%positive) 1 65536 8192) 0 32 32 128 pool_heap
           (set_pools <[1%positive := Wl_shm_pool (Some 2%positive) 1 65536 8192]>
              pool_heap));
    try reflexivity; vm_compute; intros Hc; discriminate Hc.
Defined.

(** ** Buffers stay inside their pool *)

(** Pools and buffers have gone or changed their count, none has
    changed its size. *)
Lemma in_bounds_kept h h' :
  in_bounds h →
  (∀ pp p', pools h' !! pp = Some p' →
            ∃ p, pools h !! pp = Some p ∧ size p = size p') →
  (∀ b o, buffers h' !! b = Some o → buffers h !! b = Some o) →
  in_bounds h'.
Proof.
  intros [Hsizes Hinside] Hpools Hbuffers. split.
  - intros pp p' Hp'. destruct (Hpools pp p' Hp') as (p & Hp & <-). eauto.
  - intros b o pp p' Hb Hpool Hp'.
    destruct (Hpools pp p' Hp') as (p & Hp & <-). eauto.
Qed.

Lemma in_bounds_released h pp p bs' rs' ms s :
  in_bounds h → pools h !! pp = Some p →
  (∀ b o, bs' !! b = Some o → buffers h !! b = Some o) →
  in_bounds (Heap (delete pp (pools h)) bs' rs' ms s) ∧
  in_bounds (Heap (<[pp := set_refcount (wrap32 (refcount p - 1)) p]> (pools h))
               bs' rs' ms s).
Proof.
  intros Hin Hp Hbs. split.
  - apply (in_bounds_kept h); [done| |done]. simpl. intros pp0 p0 Hp0.
    apply lookup_delete_Some in Hp0 as [_ Hp0]. eauto.
  - apply (in_bounds_kept h); [done| |done]. simpl. intros pp0 p0 Hp0.
    destruct (decide (pp0 = pp)) as [->|Hne]; simplify_map_eq; eauto.
Qed.

Lemma dispatch_keeps_in_bounds h r :
  consistent h → in_bounds h → admissible h r → growing h r →
  ∃ h' t, dispatch r h = Ok (tt, h', t) ∧ in_bounds h'.
Proof.
  intros Hc Hin Hadm Hgrow.
  destruct r as [malloc_ok answer create_ok res id fd sz
                |malloc_ok create_ok res id offset width height stride format
                |res|answer res sz|res]; simpl in *.
  - destruct malloc_ok.
    2:{ rewrite create_pool_no_memory. eexists _, _. split; [done|].
        apply (in_bounds_kept h); simpl; eauto. }
    destruct (Z_le_gt_dec sz 0) as [Hsz|Hsz].
    { rewrite create_pool_invalid_size by done. by eexists _, _. }
    destruct (decide (answer = MAP_FAILED)) as [->|Hok].
    { rewrite create_pool_mmap_failed by lia. by eexists _, _. }
    destruct create_ok.
    + rewrite create_pool_created by (done || lia). eexists _, _. split; [done|].
      destruct Hin as [Hsizes Hinside]. split; simpl.
      * intros pp p Hp. destruct (decide (pp = fresh (dom (pools h)))) as [->|Hne];
          simplify_map_eq; [simpl; lia|eauto].
      * intros b o pp p Hb Hpool Hp.
        destruct (decide (pp = fresh (dom (pools h)))) as [->|Hne]; simplify_map_eq.
        -- destruct (buffer_pool_live h Hc b o _ Hb Hpool) as [? Hlive].
           by rewrite fresh_unused in Hlive.
        -- eauto.
    + rewrite create_pool_unwound by (auto; lia). eexists _, _. split; [done|].
      apply (in_bounds_kept h); simpl; eauto.
  - destruct Hadm as (x & Hres & Himpl & Hroom).
    destruct (handle_tables h Hc res x Hres) as [Hkind _]. specialize (Hkind Himpl).
    destruct (handle_pool_live h Hc res x Hres Hkind) as (pp & Hdata & [p Hp]).
    destruct (pool_counted h Hc pp p Hp) as [_ Hrange].
    destruct (switch_format format) eqn:Hfmt.
    2:{ erewrite create_buffer_invalid_format by done. by eexists _, _. }
    destruct (invalid_geometry_defined (Some pp) p offset width height stride h Hp)
      as [Hgeo|Hgeo].
    { erewrite create_buffer_invalid_geometry; [by eexists _, _|done..|].
      by rewrite Hdata. }
    destruct malloc_ok.
    2:{ erewrite create_buffer_no_memory; [by eexists _, _|done..|]. by rewrite Hdata. }
    destruct create_ok.
    + rewrite (create_buffer_created res x pp p id offset width height stride format h)
        by done.
      eexists _, _. split; [done|].
      destruct Hin as [Hsizes Hinside].
      destruct (accepted_fits (Some pp) p offset width height stride h Hp
                  (Hsizes pp p Hp) Hgeo) as [Hfits Hq].
      pose proof (product_below_quotient stride height) as Hprod.
      unfold fits in Hfits.
      split; simpl.
      * intros pp0 p0 Hp0.
        destruct (decide (pp0 = pp)) as [->|Hne]; simplify_map_eq; eauto.
      * intros b0 o0 pp0 p0 Hb0 Hpool0 Hp0.
        destruct (decide (b0 = fresh (dom (buffers h)))) as [->|Hneb].
        -- rewrite lookup_insert_eq in Hb0. simplify_eq. simpl in *. simplify_eq.
           rewrite lookup_insert_eq in Hp0. simplify_eq. simpl. lia.
        -- rewrite lookup_insert_ne in Hb0 by done.
           destruct (decide (pp0 = pp)) as [->|Hne]; simplify_map_eq; eauto.
    + rewrite (create_buffer_unwound res x pp p id offset width height stride format h)
        by done.
      by eexists _, _.
  - destruct Hadm as (x & Hres & Himpl).
    destruct (handle_tables h Hc res x Hres) as [Hkind _]. specialize (Hkind Himpl).
    destruct (handle_pool_live h Hc res x Hres Hkind) as (pp & Hdata & [p Hp]).
    unfold shm_pool_destroy.
    rewrite (destroy_pool_handle res x pp p h Hres Hkind Hdata Hp).
    destruct (in_bounds_released h pp p (buffers h) (delete res (resources h))
                (delete (data p) (mappings h)) (fds h) Hin Hp) as [Hfreed _]; [done|].
    destruct (in_bounds_released h pp p (buffers h) (delete res (resources h))
                (mappings h) (fds h) Hin Hp) as [_ Hkept]; [done|].
    destruct (wrap32 (refcount p - 1) =? 0); by eexists _, _.
  - destruct Hadm as (x & Hres & Himpl & Hanswer).
    destruct (handle_tables h Hc res x Hres) as [Hkind _]. specialize (Hkind Himpl).
    destruct (handle_pool_live h Hc res x Hres Hkind) as (pp & Hdata & [p Hp]).
    destruct (decide (answer = MAP_FAILED)) as [->|Hok].
    { rewrite (resize_failed res x pp p sz h) by done. by eexists _, _. }
    rewrite (resize_done answer res x pp p sz h) by done.
    eexists _, _. split; [done|].
    destruct Hgrow as [Hmax Hgrow]. specialize (Hgrow x pp p Hres Hdata Hp).
    destruct Hin as [Hsizes Hinside].
    pose proof (Hsizes pp p Hp).
    split; simpl.
    + intros pp0 p0 Hp0.
      destruct (decide (pp0 = pp)) as [->|Hne]; simplify_map_eq; [simpl; lia|eauto].
    + intros b0 o0 pp0 p0 Hb0 Hpool0 Hp0.
      destruct (decide (pp0 = pp)) as [->|Hne]; simplify_map_eq; [|eauto].
      simpl. destruct (Hinside b0 o0 pp p Hb0 Hpool0 Hp) as (? & ? & ?). lia.
  - destruct Hadm as (x & Hres & Himpl).
    destruct (handle_tables h Hc res x Hres) as [_ Hkind]. specialize (Hkind Himpl).
    destruct (handle_buffer_live h Hc res x Hres Hkind) as (b & o & Hdata & Hb & Hback).
    assert (∀ b0 o0, delete b (buffers h) !! b0 = Some o0 →
              buffers h !! b0 = Some o0) as Hbs
      by (intros b0 o0 Hb0; by apply lookup_delete_Some in Hb0 as [_ ?]).
    unfold shm_buffer_destroy.
    destruct (pool (header o)) as [pp|] eqn:Hpool.
    + destruct (buffer_pool_live h Hc b o pp Hb Hpool) as [p Hp].
      rewrite (destroy_buffer_handle res x b o pp p h Hres Hkind Hdata Hb Hpool Hp).
      destruct (in_bounds_released h pp p (delete b (buffers h))
                  (delete res (resources h)) (delete (data p) (mappings h)) (fds h)
                  Hin Hp Hbs) as [Hfreed _].
      destruct (in_bounds_released h pp p (delete b (buffers h))
                  (delete res (resources h)) (mappings h) (fds h) Hin Hp Hbs)
        as [_ Hkept].
      destruct (wrap32 (refcount p - 1) =? 0); by eexists _, _.
    + rewrite (destroy_standalone_handle res x b o h Hres Hkind Hdata Hb Hpool).
      eexists _, _. split; [done|]. apply (in_bounds_kept h); simpl; eauto.
Qed.

Lemma in_bounds_bound_heap : in_bounds bound_heap.
Proof.
  split; [intros pp p|intros b o pp p]; unfold bound_heap; simpl;
    by rewrite lookup_empty.
Qed.

(** X16: from a consistent heap whose buffers lie inside their pools,
    every sequence of requests the dispatcher can deliver that makes no
    pool smaller runs without fault and ends in such a heap again: the
    bytes from the data address of every buffer of a pool up to the end
    of its footprint lie inside the mapped region of that pool. *)
Theorem growing_runs_keep_buffers_in_bounds rs : ∀ h,
  consistent h → in_bounds h → growing_run h rs →
  ∃ h' t,
    run rs h = Ok (tt, h', t) ∧ consistent h' ∧ in_bounds h' ∧
    ∀ b o pp, buffers h' !! b = Some o → pool (header o) = Some pp →
      ∃ p, pools h' !! pp = Some p ∧
           mappings h' !! data p = Some (size p) ∧
           fst (wl_shm_buffer_get_data (Some b) h')
           = Ok (Mapped (data p + offset (header o))) ∧
           data p <= data p + offset (header o) ∧
           data p + offset (header o) + stride (header o) * height (header o)
           <= data p + size p.
Proof.
  induction rs as [|r rs IH]; intros h Hc Hin Hgrow.
  - exists h, []. split; [done|]. split; [done|]. split; [done|].
    intros b o pp Hb Hpool.
    destruct (buffer_pool_live h Hc b o pp Hb Hpool) as [p Hp].
    destruct Hin as [_ Hinside].
    destruct (Hinside b o pp p Hb Hpool Hp) as (? & ? & ?).
    exists p. split; [done|]. split; [by apply (pool_mapped h Hc pp)|].
    split; [by rewrite (buffer_get_data_pool b o pp p h Hb Hpool Hp)|]. lia.
  - destruct Hgrow as (Hadm & Hr & Hrest).
    destruct (dispatch_keeps_consistent h r Hc Hadm) as (h1 & t1 & Hstep & Hc1).
    destruct (dispatch_keeps_in_bounds h r Hc Hin Hadm Hr) as (h1' & t1' & Hstep' & Hin1).
    rewrite Hstep in Hstep'. injection Hstep' as <- <-.
    destruct (IH h1 Hc1 Hin1 (Hrest h1 t1 Hstep)) as (h' & t' & Hrun & Hrest').
    exists h', (t1 ++ t'). by rewrite run_cons, Hstep, Hrun.
Qed.

Lemma growing_runs_keep_buffers_in_bounds_witness :
  ∃ h' t,
    run [Create_pool true 4096 true 1%positive 2 5 4096;
         Pool_create_buffer true true 2%positive 3 2048 16 16 64 WL_SHM_FORMAT_ARGB8888;
         Pool_resize 65536 2%positive 8192] bound_heap = Ok (tt, h', t) ∧
    consistent h' ∧ in_bounds h' ∧
    ∀ b o pp, buffers h' !! b = Some o → pool (header o) = Some pp →
      ∃ p, pools h' !! pp = Some p ∧
           mappings h' !! data p = Some (size p) ∧
           fst (wl_shm_buffer_get_data (Some b) h')
           = Ok (Mapped (data p + offset (header o))) ∧
           data p <= data p + offset (header o) ∧
           data p + offset (header o) + stride (header o) * height (header o)
           <= data p + size p.
Proof.
  apply (growing_runs_keep_buffers_in_bounds
           [Create_pool true 4096 true 1%positive 2 5 4096;
            Pool_create_buffer true true 2%positive 3 2048 16 16 64
              WL_SHM_FORMAT_ARGB8888;
            Pool_resize 65536 2%positive 8192] bound_heap
           consistent_bound_heap in_bounds_bound_heap).
  split; [intros _; reflexivity|].
  split; [vm_compute; intros Hc; discriminate Hc|].
  intros h1 t1 Hd. vm_compute in Hd. injection Hd as <- <-.
  split.
  { eexists. split; [reflexivity|]. split; [reflexivity|].
    intros pp p [= <-] Hp. vm_compute in Hp. injection Hp as <-. reflexivity. }
  split; [exact I|].
  intros h2 t2 Hd. vm_compute in Hd. injection Hd as <- <-.
  split.
  { eexists. split; [reflexivity|]. split; [reflexivity|]. right. left. reflexivity. }
  split.
  { split; [vm_compute; intros Hc; discriminate Hc|].
    intros x pp p Hx. vm_compute in Hx. injection Hx as <-.
    intros [= <-] Hp. vm_compute in Hp. injection Hp as <-.
    vm_compute. intros Hc; discriminate Hc. }
  intros h3 t3 Hd. exact I.
Defined.
